(** * supernotes-to-obsidian: the content pipeline and its orchestration

    A shallow embedding of [src/supernotes_to_obsidian/main.py].

    - Python [str] values are lists of Unicode code points ([N]).
    - The character predicates CPython takes from its Unicode database are
      written out for the ASCII range; above it they are the fields of a
      [UnicodeData] instance, so every statement holds whatever the tables say.
    - [re.sub] is a backtracking matcher over the pattern fragment the three
      regular expressions of the file use (single-character classes, greedy
      [*] and [+] on a class, one-character look-behind and look-ahead).
    - Exceptions are values of [exn]; pure code runs in [result], the
      orchestration in a state-and-exception monad over the outside world. *)

From Stdlib Require Import String Ascii.
From Stdlib Require Import List NArith Bool Lia PeanoNat Wf_nat.
Import ListNotations.


(** ** Strings *)

Definition char := N.
Bind Scope N_scope with char.
Definition str := list char.

(** An ASCII literal as a Python string. *)
Definition py (s : string) : str := map N_of_ascii (list_ascii_of_string s).

Definition LF : char := 10%N.
Definition CR : char := 13%N.
Definition SP : char := 32%N.

Definition char_eqb (a b : char) : bool := N.eqb a b.

Fixpoint str_eqb (a b : str) : bool :=
  match a, b with
  | [], [] => true
  | x :: a', y :: b' => char_eqb x y && str_eqb a' b'
  | _, _ => false
  end.

(** ** Character classes *)

(** The Unicode database above U+007F: whitespace, alphanumeric, and the
    three case flags that [str.isupper] reads. *)
Class UnicodeData := {
  uni_isspace : char -> bool;
  uni_isalnum : char -> bool;
  uni_isupper : char -> bool;
  uni_islower : char -> bool;
  uni_istitle : char -> bool
}.

(** Tables that classify nothing above ASCII. *)
Definition ascii_only : UnicodeData :=
  {| uni_isspace := fun _ => false;
     uni_isalnum := fun _ => false;
     uni_isupper := fun _ => false;
     uni_islower := fun _ => false;
     uni_istitle := fun _ => false |}.

Module Ch.
Section Classes.
Context {U : UnicodeData}.

Definition in_range (lo hi c : char) : bool := (lo <=? c)%N && (c <=? hi)%N.
Definition is_ascii (c : char) : bool := (c <? 128)%N.

(** [Py_UNICODE_ISSPACE]: tab..carriage return, the four separators
    U+001C..U+001F and the space, in ASCII. *)
Definition isspace (c : char) : bool :=
  if is_ascii c then in_range 9 13 c || in_range 28 32 c else uni_isspace c.

(** [Py_UNICODE_ISALNUM]. *)
Definition isalnum (c : char) : bool :=
  if is_ascii c
  then in_range 48 57 c || in_range 65 90 c || in_range 97 122 c
  else uni_isalnum c.

Definition isupper (c : char) : bool :=
  if is_ascii c then in_range 65 90 c else uni_isupper c.
Definition islower (c : char) : bool :=
  if is_ascii c then in_range 97 122 c else uni_islower c.
Definition istitle (c : char) : bool :=
  if is_ascii c then false else uni_istitle c.

(** [\w] of a [str] pattern: alphanumeric or the underscore. *)
Definition isword (c : char) : bool := isalnum c || char_eqb c 95%N.
End Classes.
End Ch.

(** ** Regular expressions *)

Module Re.

(** One element of a pattern. Every class is a set of single characters. *)
Inductive item :=
| One (cls : char -> bool)      (* a character of the class *)
| Star (cls : char -> bool)     (* cls*, greedy *)
| Plus (cls : char -> bool)     (* cls+, greedy *)
| Behind (cls : char -> bool)   (* (?<=cls) *)
| Ahead (cls : char -> bool).   (* (?=cls) *)

Definition pattern := list item.

(** Greedy repetition of [cls] followed by [k]: take a character when
    possible, and give it back when the rest does not match. [prev] is
    the character before the current position. *)
Fixpoint star (cls : char -> bool) (k : option char -> str -> option nat)
    (prev : option char) (s : str) : option nat :=
  match s with
  | c :: t =>
      if cls c then
        match star cls k (Some c) t with
        | Some n => Some (S n)
        | None => k prev s
        end
      else k prev s
  | [] => k prev []
  end.

(** [match_here p prev s]: the length of the match of [p] that starts at
    the head of [s], as the backtracking engine finds it. *)
Fixpoint match_here (p : pattern) : option char -> str -> option nat :=
  match p with
  | [] => fun _ _ => Some 0
  | One cls :: p' => fun _ s =>
      match s with
      | c :: t => if cls c then option_map S (match_here p' (Some c) t) else None
      | [] => None
      end
  | Star cls :: p' => star cls (match_here p')
  | Plus cls :: p' => fun _ s =>
      match s with
      | c :: t =>
          if cls c then option_map S (star cls (match_here p') (Some c) t) else None
      | [] => None
      end
  | Behind cls :: p' => fun prev s =>
      match prev with
      | Some c => if cls c then match_here p' prev s else None
      | None => None
      end
  | Ahead cls :: p' => fun prev s =>
      match s with
      | c :: _ => if cls c then match_here p' prev s else None
      | [] => None
      end
  end.

(** The scan of [re.sub]: [skip] characters of a match already replaced
    are still to be passed over; otherwise a match is tried here. An empty
    match is replaced and the character after it copied. *)
Fixpoint sub_from (p : pattern) (repl : str) (skip : nat)
    (prev : option char) (s : str) : str :=
  match s with
  | [] =>
      match skip with
      | O => match match_here p prev [] with Some _ => repl | None => [] end
      | S _ => []
      end
  | c :: t =>
      match skip with
      | S k => sub_from p repl k (Some c) t
      | O =>
          match match_here p prev s with
          | Some (S n) => repl ++ sub_from p repl n (Some c) t
          | Some O => repl ++ c :: sub_from p repl 0 (Some c) t
          | None => c :: sub_from p repl 0 (Some c) t
          end
      end
  end.

(** [re.sub(p, repl, s)] *)
Definition sub (p : pattern) (repl : str) (s : str) : str :=
  sub_from p repl 0 None s.

Definition lit (a : char) : char -> bool := char_eqb a.
Definition one_of (l : str) : char -> bool := fun c => existsb (char_eqb c) l.

End Re.

(** ** [str] methods *)

Module PyStr.
Section Methods.
Context {U : UnicodeData}.

Fixpoint startswith (s old : str) {struct old} : bool :=
  match old, s with
  | [], _ => true
  | x :: old', c :: s' => char_eqb c x && startswith s' old'
  | _ :: _, [] => false
  end.

Fixpoint replace_from (old new : str) (skip : nat) (s : str) : str :=
  match s with
  | [] => []
  | c :: t =>
      match skip with
      | S k => replace_from old new k t
      | O =>
          if startswith s old
          then new ++ replace_from old new (length old - 1) t
          else c :: replace_from old new 0 t
      end
  end.

(** [s.replace(old, new)]: the occurrences of [old], left to right and
    not overlapping; an empty [old] puts [new] around every character. *)
Definition replace (s old new : str) : str :=
  match old with
  | [] => new ++ flat_map (fun c => c :: new) s
  | _ :: _ => replace_from old new 0 s
  end.

(** [s.split()]: the maximal runs of characters that are not whitespace.
    [cur] is the run being read, last character first. *)
Fixpoint split_from (cur : str) (s : str) : list str :=
  match s with
  | [] => match cur with [] => [] | _ :: _ => [rev cur] end
  | c :: t =>
      if Ch.isspace c then
        match cur with
        | [] => split_from [] t
        | _ :: _ => rev cur :: split_from [] t
        end
      else split_from (c :: cur) t
  end.

Definition split (s : str) : list str := split_from [] s.

(** [sep.join(l)] *)
Fixpoint join (sep : str) (l : list str) : str :=
  match l with
  | [] => []
  | [w] => w
  | w :: l' => w ++ sep ++ join sep l'
  end.

Fixpoint lstrip (s : str) : str :=
  match s with
  | c :: t => if Ch.isspace c then lstrip t else s
  | [] => []
  end.

Definition rstrip (s : str) : str := rev (lstrip (rev s)).

(** [s.strip()] *)
Definition strip (s : str) : str := rstrip (lstrip s).

(** The loop of [str.isupper]: a lowercase or titlecase character
    answers no; [cased] records that an uppercase one was seen. *)
Fixpoint isupper_loop (cased : bool) (s : str) : bool :=
  match s with
  | [] => cased
  | c :: t =>
      if Ch.islower c || Ch.istitle c then false
      else isupper_loop (cased || Ch.isupper c) t
  end.

(** [s.isupper()], with CPython's shortcut for one character. *)
Definition isupper (s : str) : bool :=
  match s with
  | [] => false
  | [c] => Ch.isupper c
  | _ => isupper_loop false s
  end.

(** [s[i:]]; a slice never raises. *)
Definition slice_from (s : str) (i : nat) : str := skipn i s.

(** Truth value of a string. *)
Definition truthy (s : str) : bool :=
  match s with [] => false | _ :: _ => true end.
End Methods.
End PyStr.

(** ** Exceptions *)

(** The exceptions that occur. [Interrupt] stands for the ones that derive
    from [BaseException] only (keyboard interrupt, task cancellation);
    [except Exception] does not catch it. *)
Inductive exn :=
| IndexError (msg : str)
| ValueError (msg : str)
| OSError (msg : str)
| RemoteError (msg : str)
| Interrupt.

Definition is_Exception (e : exn) : bool :=
  match e with Interrupt => false | _ => true end.

(** [str(e)] *)
Definition exn_str (e : exn) : str :=
  match e with
  | IndexError m | ValueError m | OSError m | RemoteError m => m
  | Interrupt => []
  end.

Inductive result (A : Type) :=
| Ok (a : A)
| Raise (e : exn).
Arguments Ok {A} a.
Arguments Raise {A} e.

Definition rbind {A B} (m : result A) (k : A -> result B) : result B :=
  match m with
  | Ok a => k a
  | Raise e => Raise e
  end.

Declare Scope result_scope.
Delimit Scope result_scope with result.
Notation "x <- m ;; k" := (rbind m (fun x => k))
  (at level 61, m at next level, right associativity) : result_scope.

(** [for x in l: out.append(f(x))] *)
Fixpoint for_each {A B} (f : A -> result B) (l : list A) : result (list B) :=
  match l with
  | [] => Ok []
  | x :: l' =>
      (y <- f x ;; ys <- for_each f l' ;; Ok (y :: ys))%result
  end.

(** [s[i]]: a one-character string, or [IndexError]. *)
Definition getitem (s : str) (i : nat) : result str :=
  match nth_error s i with
  | Some c => Ok [c]
  | None => Raise (IndexError (py "string index out of range"))
  end.

(** ** The content pipeline *)

Section Pipeline.
Context {U : UnicodeData}.

(** [\n\s*\n\s*\n] *)
Definition blank_lines : Re.pattern :=
  [Re.One (Re.lit LF); Re.Star Ch.isspace; Re.One (Re.lit LF);
   Re.Star Ch.isspace; Re.One (Re.lit LF)].

(** [(?<=[.!?])\s+(?=[A-Z])] *)
Definition sentence_gap : Re.pattern :=
  [Re.Behind (Re.one_of (py ".!?")); Re.Plus Ch.isspace;
   Re.Ahead (Ch.in_range 65 90)].

(** [[^\w\s]] *)
Definition punct (c : char) : bool := negb (Ch.isword c || Ch.isspace c).
Definition not_word_or_space : Re.pattern := [Re.One punct].

Definition common_words : list str :=
  map py ["The"; "A"; "An"; "This"; "That"; "These"; "Those"; "I"; "You";
          "He"; "She"; "It"; "We"; "They"]%string.

(** [w in common_words] *)
Definition in_common_words (w : str) : bool := existsb (str_eqb w) common_words.

Definition clean (word : str) : str := Re.sub not_word_or_space [] word.

(** The condition of the [if] in the loop, operand by operand; [and]
    stops at the first false one. *)
Definition should_link (clean_word : str) : result bool :=
  if PyStr.truthy clean_word then
    (first <- getitem clean_word 0 ;;
     if PyStr.isupper first then
       if negb (in_common_words clean_word) then
         if negb (PyStr.isupper clean_word) then
           Ok (1 <? length clean_word)
         else Ok false
       else Ok false
     else Ok false)%result
  else Ok false.

Definition brackets (clean_word punctuation : str) : str :=
  py "[[" ++ clean_word ++ py "]]" ++ punctuation.

(** The body of [for word in words]. *)
Definition link_word (word : str) : result str :=
  let clean_word := clean word in
  (go <- should_link clean_word ;;
   if go then
     let punctuation := PyStr.slice_from word (length clean_word) in
     Ok (brackets clean_word punctuation)
   else Ok word)%result.

(** The first two statements: line endings, then blank lines. *)
Definition normalize (content : str) : str :=
  let content := PyStr.replace (PyStr.replace content [CR; LF] [LF]) [CR] [LF] in
  Re.sub blank_lines [LF; LF] content.

(** The third statement. *)
Definition resegment (content : str) : str :=
  Re.sub sentence_gap [LF; LF] content.

Definition process_supernote_content (content : str) : result str :=
  let content := normalize content in
  let content := resegment content in
  let words := PyStr.split content in
  (processed_words <- for_each link_word words ;;
   let content := PyStr.join [SP] processed_words in
   Ok (PyStr.strip content))%result.
End Pipeline.

(** ** The outside world and the orchestration *)

(** [config.py] *)
Module config.
Definition TEMPLATE_PATH : str :=
  py "/Users/alexhoward/Library/CloudStorage/OneDrive-Personal/Apps/remotely-save/Obsidian Vault/Admin/Templates/Daily Note Template.md".
Definition EXPORT_FOLDER : str := py "Supernote Exports".
Definition DAILY_NOTES_FOLDER : str := py "Daily Notes".
Definition NOTE_SECTION_HEADING : str := py "Notes".
Definition VALID_EXTENSIONS : list str := [py ".txt"].
Definition PROCESSED_SUFFIX : str := py ".processed".
End config.

(** What the program calls and does not define: the note service behind
    the session, the file system and the clock. Each call reads and changes
    the world and may raise. *)
Class Env := {
  World : Type;
  datetime : Type;
  (* stdio_client, ClientSession(...), session.initialize() *)
  open_session : World -> result unit * World;
  get_file_contents : str -> World -> result str * World;
  append_content : str -> str -> World -> result unit * World;
  (* filepath, target_type, target, operation, content *)
  patch_content : str -> str -> str -> str -> str -> World -> result unit * World;
  (* open(path, 'r', encoding='utf-8') and f.read() *)
  read_text : str -> World -> result str * World;
  os_rename : str -> str -> World -> result unit * World;
  os_listdir : str -> World -> result (list str) * World;
  datetime_now : World -> datetime * World;
  strftime : datetime -> str -> str;
  (* print(line): the exception that writing the line to sys.stdout raises,
     if it raises one (the text cannot be encoded, the stream is closed) *)
  stdout_error : str -> World -> option exn
}.

Section Orchestration.
Context {U : UnicodeData} {E : Env}.

(** The importer object together with what surrounds it: the world, the
    lines printed so far and [self.template_content]. *)
Record state := {
  world : World;
  stdout : list str;
  template_content : option str
}.

Definition io (A : Type) := state -> result A * state.

Definition ret {A} (a : A) : io A := fun st => (Ok a, st).
Definition raise {A} (e : exn) : io A := fun st => (Raise e, st).
Definition bind {A B} (m : io A) (k : A -> io B) : io B :=
  fun st =>
    match m st with
    | (Ok a, st') => k a st'
    | (Raise e, st') => (Raise e, st')
    end.

(** A call into the world. *)
Definition call {A} (op : World -> result A * World) : io A :=
  fun st =>
    let (r, w) := op (world st) in
    (r, {| world := w; stdout := stdout st;
           template_content := template_content st |}).

(** [print(line)]: the line is written, or the write raises. *)
Definition print (line : str) : io unit :=
  fun st =>
    match stdout_error line (world st) with
    | None =>
        (Ok tt, {| world := world st; stdout := stdout st ++ [line];
                   template_content := template_content st |})
    | Some e => (Raise e, st)
    end.

Definition set_template (t : str) : io unit :=
  fun st =>
    (Ok tt, {| world := world st; stdout := stdout st;
               template_content := Some t |}).

Definition get_template : io (option str) :=
  fun st => (Ok (template_content st), st).

(** [try: body / except Exception as e: handler e] *)
Definition try_except {A} (body : io A) (handler : exn -> io A) : io A :=
  fun st =>
    match body st with
    | (Ok a, st') => (Ok a, st')
    | (Raise e, st') =>
        if is_Exception e then handler e st' else (Raise e, st')
    end.

(** A result of pure code, inside [io]. *)
Definition pure {A} (r : result A) : io A := fun st => (r, st).

Fixpoint for_in {A} (l : list A) (body : A -> io unit) : io unit :=
  match l with
  | [] => ret tt
  | x :: l' => bind (body x) (fun _ => for_in l' body)
  end.

Definition endswith (s suffix : str) : bool :=
  PyStr.startswith (rev s) (rev suffix).

(** [s.endswith(t)] for a tuple [t] *)
Definition endswith_any (s : str) (suffixes : list str) : bool :=
  existsb (endswith s) suffixes.

(** [os.path.join(a, b)] on a POSIX system *)
Definition os_path_join (a b : str) : str :=
  if PyStr.startswith b (py "/") then b
  else if (match a with [] => true | _ => endswith a (py "/") end) then a ++ b
  else a ++ py "/" ++ b.

Definition load_template : io unit :=
  bind (call (get_file_contents config.TEMPLATE_PATH)) (fun response =>
  set_template response).

Definition ensure_daily_note_exists (date : datetime) : io str :=
  let daily_note_path :=
    config.DAILY_NOTES_FOLDER ++ py "/" ++ strftime date (py "%Y-%m-%d") ++ py ".md" in
  bind
    (try_except
       (bind (call (get_file_contents daily_note_path)) (fun _ => ret tt))
       (fun _ =>
          bind get_template (fun template =>
          match template with
          | Some (c :: t) =>
              let note_content :=
                PyStr.replace
                  (PyStr.replace (c :: t) (py "{{date}}") (strftime date (py "%Y-%m-%d")))
                  (py "{{time}}") (strftime date (py "%H:%M")) in
              call (append_content daily_note_path note_content)
          | _ => raise (ValueError (py "Template not loaded"))
          end)))
    (fun _ => ret daily_note_path).

Definition add_to_daily_note (note_path content : str) : io unit :=
  try_except
    (call (patch_content note_path (py "heading") config.NOTE_SECTION_HEADING
             (py "append") ([LF] ++ content ++ [LF])))
    (fun e => print (py "Error adding content to daily note: " ++ exn_str e)).

(** The [try] block of [process_supernote_file]. *)
Definition process_supernote_file_body (file_path : str) (date : datetime) : io unit :=
  bind (call (read_text file_path)) (fun content =>
  bind (pure (process_supernote_content content)) (fun processed_content =>
  bind (ensure_daily_note_exists date) (fun daily_note_path =>
  bind (add_to_daily_note daily_note_path processed_content) (fun _ =>
  call (os_rename file_path (file_path ++ config.PROCESSED_SUFFIX)))))).

Definition process_supernote_file (file_path : str) (date : datetime) : io unit :=
  try_except
    (process_supernote_file_body file_path date)
    (fun e => print (py "Error processing " ++ file_path ++ py ": " ++ exn_str e)).

(** The body of the [for] loop of [main]. *)
Definition visit (filename : str) : io unit :=
  if endswith_any filename config.VALID_EXTENSIONS
     && negb (endswith filename config.PROCESSED_SUFFIX)
  then
    let file_path := os_path_join config.EXPORT_FOLDER filename in
    bind (call (fun w => let (d, w') := datetime_now w in (Ok d, w'))) (fun date =>
    process_supernote_file file_path date)
  else ret tt.

Definition main : io unit :=
  bind (call open_session) (fun _ =>
  bind load_template (fun _ =>
  bind (call (os_listdir config.EXPORT_FOLDER)) (fun filenames =>
  for_in filenames visit))).
End Orchestration.

(** *** A world in memory

    Export files by name, unreadable when their content is [None]; notes of
    the vault by path. The clock stands still. *)

Record toy_world := {
  exports : list (str * option str);
  vault : list (str * str)
}.

Fixpoint lookup {A} (k : str) (l : list (str * A)) : option A :=
  match l with
  | [] => None
  | (k', v) :: l' => if str_eqb k k' then Some v else lookup k l'
  end.

Fixpoint rename_key {A} (k k2 : str) (l : list (str * A)) : list (str * A) :=
  match l with
  | [] => []
  | (k', v) :: l' =>
      if str_eqb k k' then (k2, v) :: l' else (k', v) :: rename_key k k2 l'
  end.

Fixpoint append_to (k v : str) (l : list (str * str)) : list (str * str) :=
  match l with
  | [] => [(k, v)]
  | (k', v') :: l' =>
      if str_eqb k k' then (k', v' ++ v) :: l' else (k', v') :: append_to k v l'
  end.

(** The file name of an export path. *)
Definition basename (path : str) : str :=
  skipn (length config.EXPORT_FOLDER + 1) path.

Definition toy : Env :=
  {| World := toy_world;
     datetime := unit;
     open_session := fun w => (Ok tt, w);
     get_file_contents := fun path w =>
       match lookup path (vault w) with
       | Some text => (Ok text, w)
       | None => (Raise (RemoteError (py "not found")), w)
       end;
     append_content := fun path text w =>
       (Ok tt, {| exports := exports w; vault := append_to path text (vault w) |});
     patch_content := fun path _ _ _ text w =>
       match lookup path (vault w) with
       | Some _ =>
           (Ok tt, {| exports := exports w; vault := append_to path text (vault w) |})
       | None => (Raise (RemoteError (py "not found")), w)
       end;
     read_text := fun path w =>
       match lookup (basename path) (exports w) with
       | Some (Some text) => (Ok text, w)
       | _ => (Raise (OSError (py "cannot read")), w)
       end;
     os_rename := fun a b w =>
       match lookup (basename a) (exports w) with
       | Some _ =>
           (Ok tt, {| exports := rename_key (basename a) (basename b) (exports w);
                      vault := vault w |})
       | None => (Raise (OSError (py "no such file")), w)
       end;
     os_listdir := fun _ w => (Ok (map fst (exports w)), w);
     datetime_now := fun w => (tt, w);
     strftime := fun _ fmt =>
       if str_eqb fmt (py "%H:%M") then py "09:30" else py "2024-01-15";
     stdout_error := fun _ _ => None |}.

Definition toy_files : toy_world :=
  {| exports := [(py "one.txt", None);
                 (py "two.txt", Some (py "Paris, France."));
                 (py "old.txt.processed", Some (py "Done."))];
     vault := [(config.TEMPLATE_PATH, py "# {{date}} {{time}}")] |}.

Definition toy_start : @state toy := @Build_state toy toy_files [] None.

(** The world in memory with a note service that refuses every change. *)
Definition toy_read_only : Env :=
  {| World := toy_world;
     datetime := unit;
     open_session := @open_session toy;
     get_file_contents := @get_file_contents toy;
     append_content := fun _ _ w => (Raise (RemoteError (py "read-only")), w);
     patch_content := fun _ _ _ _ _ w => (Raise (RemoteError (py "read-only")), w);
     read_text := @read_text toy;
     os_rename := @os_rename toy;
     os_listdir := @os_listdir toy;
     datetime_now := @datetime_now toy;
     strftime := @strftime toy;
     stdout_error := @stdout_error toy |}.

(** The world in memory without a note service to talk to. *)
Definition toy_offline : Env :=
  {| World := toy_world;
     datetime := unit;
     open_session := fun w => (Raise (OSError (py "no server")), w);
     get_file_contents := @get_file_contents toy;
     append_content := @append_content toy;
     patch_content := @patch_content toy;
     read_text := @read_text toy;
     os_rename := @os_rename toy;
     os_listdir := @os_listdir toy;
     datetime_now := @datetime_now toy;
     strftime := @strftime toy;
     stdout_error := @stdout_error toy |}.


(** The files of [toy_files] with the day's note already in the vault. *)
Definition toy_files_with_note : toy_world :=
  {| exports := exports toy_files;
     vault := vault toy_files ++ [(py "Daily Notes/2024-01-15.md", py "# Monday")] |}.

(** ** Notions used in the statements *)

Section Notions.
Context {U : UnicodeData}.

(** The number of newlines in the run of whitespace that [s] starts with. *)
Fixpoint nl_run (s : str) : nat :=
  match s with
  | c :: t =>
      if Ch.isspace c then (if char_eqb c LF then 1 else 0) + nl_run t else 0
  | [] => 0
  end.

(** No run of whitespace in [s] holds more than two newlines. *)
Fixpoint calm (s : str) : bool :=
  match s with
  | [] => true
  | _ :: t => (nl_run s <=? 2) && calm t
  end.

(** The five conditions of the linking rule on a clean word. *)
Definition eligible (clean_word : str) : Prop :=
  clean_word <> []
  /\ (exists c t, clean_word = c :: t /\ Ch.isupper c = true)
  /\ ~ In clean_word common_words
  /\ PyStr.isupper clean_word = false
  /\ 1 < length clean_word.

(** A run of [n] newlines. *)
Definition newlines (n : nat) : str := repeat LF n.

(** The number of characters of [s] that [[^\w\s]] deletes. *)
Definition punct_count (s : str) : nat := length (filter punct s).
(** One pass over the text in which [\r\n] and a [\r] alone each become
    one [\n]. *)
Fixpoint unify_line_endings (s : str) : str :=
  match s with
  | [] => []
  | c :: t =>
      if char_eqb c CR then
        LF :: match t with
              | c' :: t' => if char_eqb c' LF then unify_line_endings t'
                            else unify_line_endings t
              | [] => []
              end
      else c :: unify_line_endings t
  end.
(** The token that [split] closes when it meets whitespace. *)
Definition flush (cur : str) : list str :=
  match cur with [] => [] | _ :: _ => [rev cur] end.

(** A pattern whose matches are non-empty runs of whitespace. *)
Definition ws_matches (p : Re.pattern) : Prop :=
  forall prev s n,
    Re.match_here p prev s = Some n ->
    1 <= n <= length s /\ Forall (fun c => Ch.isspace c = true) (firstn n s).
End Notions.

Arguments Ch.isspace : simpl never.
Arguments Ch.isword : simpl never.
Arguments Ch.isupper : simpl never.
Arguments Ch.islower : simpl never.
Arguments Ch.istitle : simpl never.

(** ** Characters *)

Section CharFacts.
Context {U : UnicodeData}.

Lemma isspace_LF : Ch.isspace LF = true.
Proof. reflexivity. Qed.

Lemma isspace_CR : Ch.isspace CR = true.
Proof. reflexivity. Qed.

Lemma char_eqb_eq (a b : char) : char_eqb a b = true <-> a = b.
Proof. apply N.eqb_eq. Qed.

Lemma char_eqb_neq (a b : char) : char_eqb a b = false <-> a <> b.
Proof. apply N.eqb_neq. Qed.

Lemma str_eqb_eq (a b : str) : str_eqb a b = true <-> a = b.
Proof.
  revert b; induction a as [|x a IH]; intros [|y b]; simpl;
    try (split; [discriminate | discriminate]); [tauto|].
  rewrite andb_true_iff, char_eqb_eq, IH.
  split; [intros [-> ->]; reflexivity | intros H; inversion H; auto].
Qed.

Lemma not_space_not_LF (c : char) : Ch.isspace c = false -> char_eqb c LF = false.
Proof.
  intros H. apply char_eqb_neq. intros ->. rewrite isspace_LF in H. discriminate.
Qed.
End CharFacts.

(** ** The blank-line pattern *)

Section BlankLines.
Context {U : UnicodeData}.

Lemma star_cons (cls : char -> bool) k prev c t :
  Re.star cls k prev (c :: t) =
  if cls c then
    match Re.star cls k (Some c) t with
    | Some n => Some (S n)
    | None => k prev (c :: t)
    end
  else k prev (c :: t).
Proof. reflexivity. Qed.

Lemma match_one (cls : char -> bool) p prev c t :
  Re.match_here (Re.One cls :: p) prev (c :: t) =
  if cls c then option_map S (Re.match_here p (Some c) t) else None.
Proof. reflexivity. Qed.

Lemma match_one_nil (cls : char -> bool) p prev :
  Re.match_here (Re.One cls :: p) prev [] = None.
Proof. reflexivity. Qed.

Lemma match_star (cls : char -> bool) p :
  Re.match_here (Re.Star cls :: p) = Re.star cls (Re.match_here p).
Proof. reflexivity. Qed.

Lemma match_nil prev s : Re.match_here [] prev s = Some 0.
Proof. reflexivity. Qed.

Lemma lit_LF (c : char) : Re.lit LF c = char_eqb c LF.
Proof. unfold Re.lit, char_eqb. apply N.eqb_sym. Qed.

Abbreviation nl := [Re.One (Re.lit LF)].
Abbreviation nl_ws_nl := [Re.One (Re.lit LF); Re.Star Ch.isspace; Re.One (Re.lit LF)].

(** [\s*\n] ends at the last newline of the whitespace run. *)
Lemma ws_nl_spec (s : str) (prev : option char) :
  match Re.star Ch.isspace (Re.match_here nl) prev s with
  | Some n => 1 <= nl_run s /\ nl_run (skipn n s) = 0 /\ n <= length s
  | None => nl_run s = 0
  end.
Proof.
  revert prev; induction s as [|c t IH]; intros prev; [reflexivity|].
  rewrite star_cons, match_one, match_nil, lit_LF. cbn [nl_run length].
  destruct (Ch.isspace c) eqn:Hc.
  - specialize (IH (Some c)).
    destruct (Re.star Ch.isspace (Re.match_here nl) (Some c) t) as [n|].
    + cbn [skipn]. lia.
    + destruct (char_eqb c LF); cbn [option_map skipn]; lia.
  - rewrite (not_space_not_LF _ Hc). reflexivity.
Qed.

(** [\s*\n\s*\n] needs two newlines in the run and ends at its last one. *)
Lemma ws_nl_ws_nl_spec (s : str) (prev : option char) :
  match Re.star Ch.isspace (Re.match_here nl_ws_nl) prev s with
  | Some n => 2 <= nl_run s /\ nl_run (skipn n s) = 0 /\ n <= length s
  | None => nl_run s <= 1
  end.
Proof.
  revert prev; induction s as [|c t IH]; intros prev; [cbn; lia|].
  rewrite star_cons, match_one, match_star, lit_LF. cbn [nl_run length].
  destruct (Ch.isspace c) eqn:Hc.
  - specialize (IH (Some c)).
    destruct (Re.star Ch.isspace (Re.match_here nl_ws_nl) (Some c) t) as [n|].
    + cbn [skipn]. lia.
    + destruct (char_eqb c LF); [|lia].
      pose proof (ws_nl_spec t (Some c)) as H.
      destruct (Re.star Ch.isspace (Re.match_here nl) (Some c) t) as [m|];
        cbn [option_map skipn]; lia.
  - rewrite (not_space_not_LF _ Hc). lia.
Qed.

(** A match of the whole pattern: three newlines in one whitespace run,
    from the first to the last of them. *)
Lemma blank_lines_spec (s : str) (prev : option char) :
  match Re.match_here blank_lines prev s with
  | Some n =>
      3 <= nl_run s /\ nl_run (skipn n s) = 0 /\ 1 <= n <= length s
  | None => nl_run s <= 2 \/ (exists c t, s = c :: t /\ c <> LF)
  end.
Proof.
  destruct s as [|c t]; [cbn; lia|].
  unfold blank_lines. rewrite match_one, match_star, lit_LF.
  destruct (char_eqb c LF) eqn:Hc.
  - apply char_eqb_eq in Hc. subst c. cbn [nl_run length].
    rewrite isspace_LF. change (char_eqb LF LF) with true.
    pose proof (ws_nl_ws_nl_spec t (Some LF)) as H.
    destruct (Re.star Ch.isspace (Re.match_here nl_ws_nl) (Some LF) t) as [n|];
      cbn [option_map skipn]; lia.
  - right. exists c, t. split; [reflexivity|]. now apply char_eqb_neq.
Qed.

(** The pattern has no look-behind: the scan does not depend on the
    character before it. *)
Lemma blank_lines_prev (s : str) (p1 p2 : option char) :
  Re.match_here blank_lines p1 s = Re.match_here blank_lines p2 s.
Proof. destruct s; reflexivity. Qed.

Lemma sub_from_blank_prev (r s : str) (skip : nat) (p1 p2 : option char) :
  Re.sub_from blank_lines r skip p1 s = Re.sub_from blank_lines r skip p2 s.
Proof.
  destruct s as [|c t]; destruct skip; reflexivity.
Qed.

Lemma sub_from_blank_skipn (r s : str) (n : nat) (prev : option char) :
  Re.sub_from blank_lines r n prev s
  = Re.sub_from blank_lines r 0 None (skipn n s).
Proof.
  revert n prev; induction s as [|c t IH]; intros [|n] prev.
  - apply sub_from_blank_prev.
  - reflexivity.
  - apply sub_from_blank_prev.
  - cbn [Re.sub_from skipn]. apply IH.
Qed.

Abbreviation collapse := (Re.sub blank_lines [LF; LF]).

Lemma collapse_nil : collapse [] = [].
Proof. reflexivity. Qed.

(** One step of the scan. *)
Lemma collapse_cons (c : char) (t : str) :
  collapse (c :: t) =
  match Re.match_here blank_lines None (c :: t) with
  | Some n => LF :: LF :: collapse (skipn n (c :: t))
  | None => c :: collapse t
  end.
Proof.
  unfold Re.sub. cbn [Re.sub_from].
  pose proof (blank_lines_spec (c :: t) None) as H.
  destruct (Re.match_here blank_lines None (c :: t)) as [[|n]|].
  - lia.
  - rewrite sub_from_blank_skipn. reflexivity.
  - rewrite (sub_from_blank_prev _ t 0 (Some c) None). reflexivity.
Qed.

Lemma nl_run_LF (s : str) : nl_run (LF :: s) = S (nl_run s).
Proof. cbn [nl_run]. rewrite isspace_LF. reflexivity. Qed.

Lemma nl_run_other (c : char) (s : str) :
  c <> LF -> nl_run (c :: s) <= nl_run s.
Proof.
  intros H. cbn [nl_run]. apply char_eqb_neq in H. rewrite H.
  destruct (Ch.isspace c); lia.
Qed.

Lemma nl_run_cons (c : char) (s s' : str) :
  nl_run s' <= nl_run s -> nl_run (c :: s') <= nl_run (c :: s).
Proof. intros H. cbn [nl_run]. destruct (Ch.isspace c); lia. Qed.

(** Collapsing leaves at most two newlines at the head, and never more
    than there were. *)
Lemma nl_run_collapse (s : str) :
  nl_run (collapse s) <= nl_run s /\ nl_run (collapse s) <= 2.
Proof.
  remember (length s) as k eqn:Hk. revert s Hk.
  induction k as [k IH] using lt_wf_ind. intros [|c t] Hk.
  - cbn. lia.
  - rewrite collapse_cons.
    pose proof (blank_lines_spec (c :: t) None) as H.
    destruct (Re.match_here blank_lines None (c :: t)) as [n|].
    + destruct H as (H3 & H0 & Hn).
      destruct (IH (length (skipn n (c :: t)))
                  ltac:(rewrite length_skipn; cbn [length] in *; lia)
                  (skipn n (c :: t)) eq_refl) as [Ha _].
      rewrite !nl_run_LF. lia.
    + destruct (IH (length t) ltac:(cbn [length] in Hk; lia) t eq_refl) as [Ha Hb].
      split; [apply nl_run_cons, Ha|].
      destruct H as [H | (c' & t' & Heq & Hne)].
      * pose proof (nl_run_cons c _ _ Ha). lia.
      * inversion Heq; subst c' t'.
        pose proof (nl_run_other c (collapse t) Hne). lia.
Qed.

(** After collapsing, no whitespace run holds three newlines. *)
Lemma calm_collapse (s : str) : calm (collapse s) = true.
Proof.
  remember (length s) as k eqn:Hk. revert s Hk.
  induction k as [k IH] using lt_wf_ind. intros [|c t] Hk.
  - reflexivity.
  - pose proof (nl_run_collapse (c :: t)) as [_ Hhead].
    rewrite collapse_cons in *.
    pose proof (blank_lines_spec (c :: t) None) as H.
    destruct (Re.match_here blank_lines None (c :: t)) as [n|].
    + destruct H as (H3 & H0 & Hn).
      assert (Hrest : calm (collapse (skipn n (c :: t))) = true).
      { apply (IH (length (skipn n (c :: t)))); [|reflexivity].
        rewrite length_skipn. cbn [length] in *. lia. }
      rewrite nl_run_LF in Hhead.
      cbn [calm]. rewrite Hrest, !andb_true_r.
      apply andb_true_iff; split; apply Nat.leb_le; [rewrite nl_run_LF|]; lia.
    + cbn [calm]. apply andb_true_iff; split; [apply Nat.leb_le, Hhead|].
      apply (IH (length t)); [cbn [length] in Hk; lia | reflexivity].
Qed.

(** Where no run holds three newlines, nothing is replaced. *)
Lemma collapse_calm (s : str) : calm s = true -> collapse s = s.
Proof.
  induction s as [|c t IH]; intros H; [reflexivity|].
  cbn [calm] in H. apply andb_true_iff in H as [Hhead Hrest].
  apply Nat.leb_le in Hhead.
  rewrite collapse_cons.
  pose proof (blank_lines_spec (c :: t) None) as Hm.
  destruct (Re.match_here blank_lines None (c :: t)) as [n|]; [lia|].
  rewrite (IH Hrest). reflexivity.
Qed.
End BlankLines.

(** ** Line endings *)

Section LineEndings.
Context {U : UnicodeData}.

Lemma replace_from_cons_other (x c : char) (old new t : str) :
  c <> x ->
  PyStr.replace_from (x :: old) new 0 (c :: t)
  = c :: PyStr.replace_from (x :: old) new 0 t.
Proof.
  intros H. cbn [PyStr.replace_from PyStr.startswith].
  apply char_eqb_neq in H. rewrite H. reflexivity.
Qed.

(** A prefix without the first character of [old] is copied. *)
Lemma replace_from_app (x : char) (old new a s : str) :
  ~ In x a ->
  PyStr.replace_from (x :: old) new 0 (a ++ s)
  = a ++ PyStr.replace_from (x :: old) new 0 s.
Proof.
  induction a as [|c a IH]; intros H; [reflexivity|].
  cbn [app]. rewrite replace_from_cons_other by (intros ->; apply H; now left).
  rewrite IH by (intros Hin; apply H; now right). reflexivity.
Qed.

Lemma replace_from_absent (x : char) (old new s : str) :
  ~ In x s -> PyStr.replace_from (x :: old) new 0 s = s.
Proof.
  intros H. rewrite <- (app_nil_r s) at 1. rewrite replace_from_app by assumption.
  cbn. apply app_nil_r.
Qed.

(** Replacing every [\r] leaves none. *)
Lemma replace_CR_gone (s : str) : ~ In CR (PyStr.replace s [CR] [LF]).
Proof.
  unfold PyStr.replace, not.
  induction s as [|c t IH]; [intros []|].
  cbn [PyStr.replace_from PyStr.startswith length Nat.sub].
  destruct (char_eqb c CR) eqn:Hc; cbn [andb app In].
  - intros [H | H]; [discriminate H | exact (IH H)].
  - apply char_eqb_neq in Hc. intros [H | H]; [congruence | exact (IH H)].
Qed.

(** What [re.sub] returns is made of the input and the replacement. *)
Lemma sub_from_In (p : Re.pattern) (r : str) (x : char) (s : str) :
  forall skip prev,
    In x (Re.sub_from p r skip prev s) -> In x s \/ In x r.
Proof.
  induction s as [|c t IH]; intros skip prev; cbn [Re.sub_from].
  - destruct skip; [|intros []].
    destruct (Re.match_here p prev []); [intros H; now right | intros []].
  - destruct skip as [|k].
    + destruct (Re.match_here p prev (c :: t)) as [[|n]|]; intros H.
      * apply in_app_or in H as [H | [H | H]]; [now right | left; now left |].
        destruct (IH _ _ H); [left; now right | now right].
      * apply in_app_or in H as [H | H]; [now right |].
        destruct (IH _ _ H); [left; now right | now right].
      * destruct H as [H | H]; [left; now left |].
        destruct (IH _ _ H); [left; now right | now right].
    + intros H. destruct (IH _ _ H); [left; now right | now right].
Qed.

Lemma normalize_no_CR (s : str) : ~ In CR (normalize s).
Proof.
  unfold normalize, Re.sub. intros H.
  apply sub_from_In in H as [H | H].
  - exact (replace_CR_gone _ H).
  - cbn in H. intuition discriminate.
Qed.

(** Without a [\r], both replacements return their input. *)
Lemma line_endings_fixed (s : str) :
  ~ In CR s -> PyStr.replace (PyStr.replace s [CR; LF] [LF]) [CR] [LF] = s.
Proof.
  intros H. cbv [PyStr.replace].
  rewrite (replace_from_absent CR [LF] [LF] s H).
  apply replace_from_absent, H.
Qed.

Lemma line_endings_app (a s : str) :
  ~ In CR a ->
  PyStr.replace (PyStr.replace (a ++ s) [CR; LF] [LF]) [CR] [LF]
  = a ++ PyStr.replace (PyStr.replace s [CR; LF] [LF]) [CR] [LF].
Proof.
  intros H. cbv [PyStr.replace].
  rewrite (replace_from_app CR [LF] [LF] a s H).
  apply replace_from_app, H.
Qed.
End LineEndings.

(** ** The normalizer *)

Section Normalizer.
Context {U : UnicodeData}.

Abbreviation collapse := (Re.sub blank_lines [LF; LF]).
Abbreviation nl := [Re.One (Re.lit LF)].
Abbreviation nl_ws_nl := [Re.One (Re.lit LF); Re.Star Ch.isspace; Re.One (Re.lit LF)].

(** On [n] newlines followed by a character that is not whitespace,
    [\s*\n] takes them all. *)
Lemma ws_nl_newlines (n : nat) (c : char) (b : str) (prev : option char) :
  Ch.isspace c = false ->
  Re.star Ch.isspace (Re.match_here nl) prev (newlines n ++ c :: b)
  = match n with 0 => None | S _ => Some n end.
Proof.
  intros Hc. revert prev. induction n as [|n IH]; intros prev.
  - cbn [newlines repeat app]. rewrite star_cons, Hc, match_one, lit_LF.
    now rewrite (not_space_not_LF _ Hc).
  - cbn [newlines repeat app]. rewrite star_cons, isspace_LF.
    fold (newlines n). rewrite IH. destruct n; reflexivity.
Qed.

Lemma ws_nl_ws_nl_newlines (n : nat) (c : char) (b : str) (prev : option char) :
  Ch.isspace c = false ->
  Re.star Ch.isspace (Re.match_here nl_ws_nl) prev (newlines n ++ c :: b)
  = if n <? 2 then None else Some n.
Proof.
  intros Hc. revert prev. induction n as [|n IH]; intros prev.
  - cbn [newlines repeat app]. rewrite star_cons, Hc, match_one, lit_LF.
    now rewrite (not_space_not_LF _ Hc).
  - cbn [newlines repeat app]. rewrite star_cons, isspace_LF.
    fold (newlines n). rewrite IH.
    destruct n as [|[|n]]; try reflexivity;
      rewrite match_one, match_star; change (Re.lit LF LF) with true;
      cbv iota; now rewrite ws_nl_newlines.
Qed.

Lemma blank_lines_newlines (n : nat) (c : char) (b : str) (prev : option char) :
  Ch.isspace c = false -> 3 <= n ->
  Re.match_here blank_lines prev (newlines n ++ c :: b) = Some n.
Proof.
  intros Hc Hn. destruct n as [|n]; [lia|].
  cbn [newlines repeat app]. unfold blank_lines.
  rewrite match_one, match_star. change (Re.lit LF LF) with true. cbv iota.
  fold (newlines n). rewrite ws_nl_ws_nl_newlines by assumption.
  destruct n as [|[|n]]; [lia | lia | reflexivity].
Qed.

(** Text without a newline is copied. *)
Lemma collapse_app (a s : str) : ~ In LF a -> collapse (a ++ s) = a ++ collapse s.
Proof.
  induction a as [|c a IH]; intros H; [reflexivity|].
  cbn [app]. rewrite collapse_cons. unfold blank_lines at 1.
  rewrite match_one, lit_LF.
  assert (Hc : char_eqb c LF = false).
  { apply char_eqb_neq. intros ->. apply H. now left. }
  rewrite Hc, IH; [reflexivity|]. intros Hin. apply H. now right.
Qed.

Lemma collapse_newlines (n : nat) (c : char) (b : str) :
  Ch.isspace c = false -> 3 <= n ->
  collapse (newlines n ++ c :: b) = LF :: LF :: collapse (c :: b).
Proof.
  intros Hc Hn.
  pose proof (blank_lines_newlines n c b None Hc Hn) as Hm.
  destruct n as [|n]; [lia|]. cbn [newlines repeat app] in *.
  rewrite collapse_cons, Hm. fold (newlines n).
  change (skipn (S n) (LF :: newlines n ++ c :: b)) with (skipn n (newlines n ++ c :: b)).
  rewrite skipn_app, skipn_all2 by (unfold newlines; rewrite repeat_length; lia).
  unfold newlines. rewrite repeat_length, Nat.sub_diag. reflexivity.
Qed.

Lemma In_newlines (x : char) (n : nat) : In x (newlines n) -> x = LF.
Proof. intros H. now apply repeat_spec in H. Qed.

(** A suffix of a calm text is calm. *)
Lemma calm_app (a s : str) : calm (a ++ s) = true -> calm s = true.
Proof.
  induction a as [|c a IH]; [trivial|].
  cbn [app calm]. intros H. apply andb_true_iff in H as [_ H]. auto.
Qed.

Lemma calm_head (s : str) : calm s = true -> nl_run s <= 2.
Proof.
  destruct s as [|c t]; [cbn; lia|]. cbn [calm]. intros H.
  apply andb_true_iff in H as [H _]. now apply Nat.leb_le.
Qed.

Lemma nl_run_ws_app (w s : str) :
  Forall (fun c => Ch.isspace c = true) w -> nl_run s <= nl_run (w ++ s).
Proof.
  induction 1 as [|c w Hc _ IH]; [reflexivity|].
  cbn [app nl_run]. rewrite Hc. lia.
Qed.

Lemma nl_run_three (w1 w2 b : str) :
  Forall (fun c => Ch.isspace c = true) w1 ->
  Forall (fun c => Ch.isspace c = true) w2 ->
  3 <= nl_run (LF :: w1 ++ LF :: w2 ++ LF :: b).
Proof.
  intros H1 H2. rewrite nl_run_LF.
  pose proof (nl_run_ws_app w1 (LF :: w2 ++ LF :: b) H1).
  rewrite nl_run_LF in H.
  pose proof (nl_run_ws_app w2 (LF :: b) H2) as H'.
  rewrite nl_run_LF in H'. lia.
Qed.

Lemma normalize_calm (s : str) : calm (normalize s) = true.
Proof. apply calm_collapse. Qed.

Abbreviation ws := (fun c : char => Ch.isspace c = true).

(** What the pattern matches is whitespace. *)
Lemma ws_nl_matched (s : str) (prev : option char) (n : nat) :
  Re.star Ch.isspace (Re.match_here nl) prev s = Some n -> Forall ws (firstn n s).
Proof.
  revert prev n; induction s as [|c t IH]; intros prev n; [discriminate|].
  rewrite star_cons, match_one, match_nil, lit_LF.
  destruct (Ch.isspace c) eqn:Hc.
  - destruct (Re.star Ch.isspace (Re.match_here nl) (Some c) t) as [m|] eqn:Hm.
    + intros [= <-]. cbn [firstn]. constructor; [exact Hc | eapply IH, Hm].
    + destruct (char_eqb c LF); [|discriminate].
      intros [= <-]. cbn [firstn]. now repeat constructor.
  - rewrite (not_space_not_LF _ Hc). discriminate.
Qed.

Lemma ws_nl_ws_nl_matched (s : str) (prev : option char) (n : nat) :
  Re.star Ch.isspace (Re.match_here nl_ws_nl) prev s = Some n ->
  Forall ws (firstn n s).
Proof.
  revert prev n; induction s as [|c t IH]; intros prev n; [discriminate|].
  rewrite star_cons, match_one, match_star, lit_LF.
  destruct (Ch.isspace c) eqn:Hc.
  - destruct (Re.star Ch.isspace (Re.match_here nl_ws_nl) (Some c) t) as [m|] eqn:Hm.
    + intros [= <-]. cbn [firstn]. constructor; [exact Hc | eapply IH, Hm].
    + destruct (char_eqb c LF); [|discriminate].
      destruct (Re.star Ch.isspace (Re.match_here nl) (Some c) t) as [k|] eqn:Hk;
        [|discriminate].
      intros [= <-]. cbn [firstn]. constructor; [exact Hc | eapply ws_nl_matched, Hk].
  - rewrite (not_space_not_LF _ Hc). discriminate.
Qed.

Lemma blank_lines_matched (s : str) (prev : option char) (n : nat) :
  Re.match_here blank_lines prev s = Some n -> Forall ws (firstn n s).
Proof.
  destruct s as [|c t]; [discriminate|].
  unfold blank_lines. rewrite match_one, match_star, lit_LF.
  destruct (char_eqb c LF) eqn:Hc; [|discriminate].
  apply char_eqb_eq in Hc. subst c.
  destruct (Re.star Ch.isspace (Re.match_here nl_ws_nl) (Some LF) t) as [k|] eqn:Hk;
    [|discriminate].
  intros [= <-]. cbn [firstn]. constructor; [exact isspace_LF|].
  eapply ws_nl_ws_nl_matched, Hk.
Qed.

(** Text that ends with a character other than whitespace: a match that
    starts in it ends in it. *)
Lemma ws_nl_local (u x : str) (prev : option char) :
  u <> [] -> Ch.isspace (last u 0%N) = false ->
  Re.star Ch.isspace (Re.match_here nl) prev (u ++ x)
  = Re.star Ch.isspace (Re.match_here nl) prev u.
Proof.
  revert prev; induction u as [|c u IH]; intros prev Hne Hlast; [contradiction|].
  destruct u as [|c' u].
  - cbn [app last] in *. rewrite !star_cons, Hlast, !match_one, !match_nil. reflexivity.
  - cbn [app].
    rewrite (star_cons Ch.isspace _ prev c (c' :: u ++ x)),
            (star_cons Ch.isspace _ prev c (c' :: u)), !match_one, !match_nil.
    change (c' :: u ++ x) with ((c' :: u) ++ x).
    rewrite IH by (try discriminate; exact Hlast). reflexivity.
Qed.

Lemma ws_nl_ws_nl_local (u x : str) (prev : option char) :
  u <> [] -> Ch.isspace (last u 0%N) = false ->
  Re.star Ch.isspace (Re.match_here nl_ws_nl) prev (u ++ x)
  = Re.star Ch.isspace (Re.match_here nl_ws_nl) prev u.
Proof.
  revert prev; induction u as [|c u IH]; intros prev Hne Hlast; [contradiction|].
  destruct u as [|c' u].
  - cbn [app last] in *. rewrite !star_cons, Hlast, !match_one, !lit_LF.
    now rewrite (not_space_not_LF _ Hlast).
  - cbn [app].
    rewrite (star_cons Ch.isspace _ prev c (c' :: u ++ x)),
            (star_cons Ch.isspace _ prev c (c' :: u)), !match_one, !match_star.
    change (c' :: u ++ x) with ((c' :: u) ++ x).
    rewrite IH by (try discriminate; exact Hlast).
    rewrite ws_nl_local by (try discriminate; exact Hlast). reflexivity.
Qed.

Lemma blank_lines_local (u x : str) (prev : option char) :
  u <> [] -> Ch.isspace (last u 0%N) = false ->
  Re.match_here blank_lines prev (u ++ x) = Re.match_here blank_lines prev u.
Proof.
  intros Hne Hlast. destruct u as [|c u]; [contradiction|].
  unfold blank_lines. cbn [app]. rewrite !match_one, !match_star.
  destruct u as [|c' u].
  - cbn [last] in Hlast. rewrite lit_LF, (not_space_not_LF _ Hlast). reflexivity.
  - change (c' :: u ++ x) with ((c' :: u) ++ x).
    rewrite ws_nl_ws_nl_local by (try discriminate; exact Hlast). reflexivity.
Qed.

Lemma last_app_cons (a1 : str) (c : char) (a2 : str) (d : char) :
  last (a1 ++ c :: a2) d = last (c :: a2) d.
Proof.
  induction a1 as [|x a1 IH]; [reflexivity|].
  cbn [app]. rewrite <- IH. destruct a1; reflexivity.
Qed.

Lemma last_suffix (a1 a2 : str) :
  Ch.isspace (last (a1 ++ a2) 0%N) = false -> Ch.isspace (last a2 0%N) = false.
Proof.
  destruct a2 as [|c a2]; [reflexivity|]. now rewrite last_app_cons.
Qed.

(** Collapsing distributes over such a text. *)
Lemma collapse_local (a x : str) :
  Ch.isspace (last a 0%N) = false -> collapse (a ++ x) = collapse a ++ collapse x.
Proof.
  remember (length a) as k eqn:Hk. revert a Hk.
  induction k as [k IH] using lt_wf_ind. intros [|c a] Hk Hlast; [reflexivity|].
  cbn [app]. rewrite !collapse_cons.
  change (c :: a ++ x) with ((c :: a) ++ x).
  rewrite blank_lines_local by (try discriminate; exact Hlast).
  pose proof (blank_lines_spec (c :: a) None) as Hm.
  destruct (Re.match_here blank_lines None (c :: a)) as [n|].
  - destruct Hm as (_ & _ & Hn).
    rewrite skipn_app. replace (n - length (c :: a)) with 0 by lia.
    change (skipn 0 x) with x. cbn [app]. do 2 f_equal.
    apply (IH (length (skipn n (c :: a)))); [|reflexivity|].
    + rewrite length_skipn. cbn [length] in *. lia.
    + apply (last_suffix (firstn n (c :: a))). now rewrite firstn_skipn.
  - cbn [app]. f_equal.
    apply (IH (length a)); [cbn [length] in Hk; lia | reflexivity |].
    apply (last_suffix [c]). exact Hlast.
Qed.

Lemma nl_run_ws_LF (v r : str) :
  Forall ws v -> In LF v -> 1 <= nl_run (v ++ r).
Proof.
  induction 1 as [|c v Hc _ IH]; [intros []|].
  intros [-> | Hin]; cbn [app]; [rewrite nl_run_LF; lia|].
  cbn [nl_run]. rewrite Hc. specialize (IH Hin). lia.
Qed.

(** A whitespace run from a newline to a newline, with a third one in
    between, before a character that is not whitespace: the match is the
    run. *)
Lemma blank_lines_run (w1 w2 : str) (c : char) (b : str) (prev : option char) :
  Forall ws w1 -> Forall ws w2 -> Ch.isspace c = false ->
  Re.match_here blank_lines prev (LF :: w1 ++ LF :: w2 ++ LF :: c :: b)
  = Some (3 + length w1 + length w2).
Proof.
  intros H1 H2 Hc.
  set (run := LF :: w1 ++ LF :: w2 ++ [LF]).
  assert (Hs : LF :: w1 ++ LF :: w2 ++ LF :: c :: b = run ++ c :: b).
  { unfold run. repeat (cbn [app]; rewrite <- ?app_assoc). reflexivity. }
  assert (Hlen : length run = 3 + length w1 + length w2).
  { unfold run. cbn [length]. rewrite !length_app. cbn [length].
    rewrite length_app. cbn [length]. lia. }
  assert (Hrun : Forall ws run).
  { unfold run. constructor; [exact isspace_LF|].
    apply Forall_app. split; [assumption|].
    constructor; [exact isspace_LF|].
    apply Forall_app. split; [assumption|]. now repeat constructor. }
  pose proof (nl_run_three w1 w2 (c :: b) H1 H2) as H3.
  pose proof (blank_lines_spec (LF :: w1 ++ LF :: w2 ++ LF :: c :: b) prev) as Hm.
  pose proof (blank_lines_matched (LF :: w1 ++ LF :: w2 ++ LF :: c :: b) prev) as Hw.
  destruct (Re.match_here blank_lines prev (LF :: w1 ++ LF :: w2 ++ LF :: c :: b))
    as [n|].
  - destruct Hm as (_ & H0 & _). specialize (Hw n eq_refl).
    rewrite Hs in H0, Hw. f_equal. rewrite <- Hlen.
    destruct (Nat.lt_trichotomy n (length run)) as [Hlt | [Heq | Hgt]];
      [exfalso | exact Heq | exfalso].
    + rewrite skipn_app in H0. replace (n - length run) with 0 in H0 by lia.
      cbn [skipn] in H0.
      assert (Hin : In LF (skipn n run)).
      { assert (Hr : run = (LF :: w1 ++ LF :: w2) ++ [LF]).
        { unfold run. cbn [app]. now rewrite <- app_assoc. }
        assert (Hpre : length run = S (length (LF :: w1 ++ LF :: w2))).
        { rewrite Hr, length_app. cbn [length]. lia. }
        rewrite Hr, skipn_app, in_app_iff. right.
        replace (n - length (LF :: w1 ++ LF :: w2)) with 0 by lia.
        now left. }
      assert (Hsk : Forall ws (skipn n run)).
      { rewrite <- (firstn_skipn n run) in Hrun. now apply Forall_app in Hrun. }
      pose proof (nl_run_ws_LF (skipn n run) (c :: b) Hsk Hin). lia.
    + rewrite firstn_app in Hw. apply Forall_app in Hw as [_ Hw].
      destruct (n - length run) as [|k] eqn:Hk; [lia|].
      cbn [firstn] in Hw. inversion Hw as [|? ? Hc' _]. congruence.
  - destruct Hm as [Hm | (c' & t' & Heq & Hne)]; [lia|].
    inversion Heq. congruence.
Qed.

Lemma collapse_run (w1 w2 : str) (c : char) (b : str) :
  Forall ws w1 -> Forall ws w2 -> Ch.isspace c = false ->
  collapse (LF :: w1 ++ LF :: w2 ++ LF :: c :: b) = LF :: LF :: collapse (c :: b).
Proof.
  intros H1 H2 Hc. rewrite collapse_cons, (blank_lines_run w1 w2 c b None H1 H2 Hc).
  do 2 f_equal.
  replace (LF :: w1 ++ LF :: w2 ++ LF :: c :: b)
    with ((LF :: w1 ++ LF :: w2 ++ [LF]) ++ c :: b)
    by (repeat (cbn [app]; rewrite <- ?app_assoc); reflexivity).
  assert (Hlen : length (LF :: w1 ++ LF :: w2 ++ [LF]) = 3 + length w1 + length w2).
  { cbn [length]. rewrite length_app. cbn [length]. rewrite length_app.
    cbn [length]. lia. }
  rewrite <- Hlen, skipn_app, skipn_all, Nat.sub_diag. reflexivity.
Qed.

Lemma line_endings_cons (c : char) (b : str) :
  c <> CR ->
  PyStr.replace (PyStr.replace (c :: b) [CR; LF] [LF]) [CR] [LF]
  = c :: PyStr.replace (PyStr.replace b [CR; LF] [LF]) [CR] [LF].
Proof.
  intros H. apply (line_endings_app [c] b). intros [Heq | []]. congruence.
Qed.

(** The normalizer on a blank run between two paragraphs. *)
Lemma normalize_run (a w1 w2 : str) (c : char) (b : str) :
  ~ In CR a -> Ch.isspace (last a 0%N) = false ->
  Forall ws w1 -> Forall ws w2 -> ~ In CR w1 -> ~ In CR w2 ->
  Ch.isspace c = false ->
  normalize (a ++ LF :: w1 ++ LF :: w2 ++ LF :: c :: b)
  = normalize a ++ [LF; LF] ++ normalize (c :: b).
Proof.
  intros Ha Hlast H1 H2 Hc1 Hc2 Hc. unfold normalize.
  assert (Hcr : c <> CR) by (intros ->; rewrite isspace_CR in Hc; discriminate).
  rewrite line_endings_app by assumption.
  rewrite (line_endings_fixed a Ha).
  change (LF :: w1 ++ LF :: w2 ++ LF :: c :: b)
    with ((LF :: w1) ++ (LF :: w2) ++ [LF] ++ c :: b).
  rewrite (line_endings_app (LF :: w1))
    by (intros [H | H]; [discriminate H | contradiction]).
  rewrite (line_endings_app (LF :: w2))
    by (intros [H | H]; [discriminate H | contradiction]).
  rewrite (line_endings_app [LF]) by (intros [H | []]; discriminate H).
  rewrite line_endings_cons by assumption.
  rewrite collapse_local by assumption.
  cbn [app]. rewrite collapse_run by assumption. reflexivity.
Qed.
(** C6. The normalizer turns ["a\n\n\n\nb"] into ["a\n\nb"]. A run of
    three or more newlines (two or more blank lines, so also three or
    more) between a line and a character that is not whitespace becomes
    exactly two newlines, one blank line; so does, after any text that ends
    a paragraph, a run of blank lines that hold whitespace. In what the
    normalizer returns, no three newlines stand with nothing but whitespace
    between them: at most one blank line separates paragraphs. *)
Theorem normalizer_collapses_blank_lines :
  normalize (py "a" ++ [LF; LF; LF; LF] ++ py "b") = py "a" ++ [LF; LF] ++ py "b"
  /\ (forall (a : str) (n : nat) (c : char) (b : str),
        3 <= n -> ~ In LF a -> ~ In CR a -> Ch.isspace c = false ->
        normalize (a ++ newlines n ++ c :: b)
        = a ++ [LF; LF] ++ normalize (c :: b))
  /\ (forall (a w1 w2 : str) (c : char) (b : str),
        ~ In CR a -> Ch.isspace (last a 0%N) = false ->
        Forall (fun c => Ch.isspace c = true) w1 ->
        Forall (fun c => Ch.isspace c = true) w2 ->
        ~ In CR w1 -> ~ In CR w2 ->
        Ch.isspace c = false ->
        normalize (a ++ LF :: w1 ++ LF :: w2 ++ LF :: c :: b)
        = normalize a ++ [LF; LF] ++ normalize (c :: b))
  /\ (forall (s a w1 w2 b : str),
        Forall (fun c => Ch.isspace c = true) w1 ->
        Forall (fun c => Ch.isspace c = true) w2 ->
        normalize s <> a ++ LF :: w1 ++ LF :: w2 ++ LF :: b).
Proof.
  split; [vm_compute; reflexivity|]. split.
  - intros a n c b Hn HLF HCR Hc. unfold normalize.
    rewrite line_endings_app by assumption.
    rewrite line_endings_app
      by (intros H; apply In_newlines in H; discriminate H).
    rewrite collapse_app by assumption.
    assert (Hcr : c <> CR) by (intros ->; rewrite isspace_CR in Hc; discriminate).
    cbv [PyStr.replace].
    rewrite !replace_from_cons_other by assumption.
    rewrite collapse_newlines by assumption. reflexivity.
  - split; [exact normalize_run|].
    intros s a w1 w2 b H1 H2 Heq.
    pose proof (normalize_calm s) as H. rewrite Heq in H.
    apply calm_app, calm_head in H.
    pose proof (nl_run_three w1 w2 b H1 H2). lia.
Qed.

(** C7. The normalizer is idempotent. *)
Theorem normalizer_idempotent (s : str) :
  normalize (normalize s) = normalize s.
Proof.
  unfold normalize at 1.
  rewrite line_endings_fixed by apply normalize_no_CR.
  apply collapse_calm, normalize_calm.
Qed.
End Normalizer.

(** ** Tokens and clean words *)

Section Tokens.
Context {U : UnicodeData}.

Abbreviation nonspace := (fun c : char => Ch.isspace c = false).

(** Every token of [split] is a non-empty run without whitespace. *)
Lemma split_from_tokens (s cur : str) :
  Forall nonspace cur ->
  Forall (fun w => w <> [] /\ Forall nonspace w) (PyStr.split_from cur s).
Proof.
  revert cur; induction s as [|c t IH]; intros cur Hcur; cbn [PyStr.split_from].
  - destruct cur as [|x cur]; constructor; [|constructor].
    split.
    + intros H. apply (f_equal (@length _)) in H.
      rewrite length_rev in H. discriminate H.
    + apply Forall_rev, Hcur.
  - destruct (Ch.isspace c) eqn:Hc.
    + destruct cur as [|x cur]; [apply IH; constructor|].
      constructor; [|apply IH; constructor].
      split.
      * intros H. apply (f_equal (@length _)) in H.
        rewrite length_rev in H. discriminate H.
      * apply Forall_rev, Hcur.
    + apply IH. constructor; assumption.
Qed.

Lemma split_tokens (s : str) :
  Forall (fun w => w <> [] /\ Forall nonspace w) (PyStr.split s).
Proof. apply split_from_tokens. constructor. Qed.

(** Replacing the matches of a one-character class by nothing is a filter. *)
Lemma sub_one_class (cls : char -> bool) (s : str) (prev : option char) :
  Re.sub_from [Re.One cls] [] 0 prev s = filter (fun c => negb (cls c)) s.
Proof.
  revert prev; induction s as [|c t IH]; intros prev; [reflexivity|].
  cbn [Re.sub_from filter]. rewrite match_one, match_nil.
  destruct (cls c); cbn [option_map negb app]; now rewrite IH.
Qed.

Lemma clean_filter (word : str) :
  clean word = filter (fun c => negb (punct c)) word.
Proof. apply sub_one_class. Qed.

Lemma filter_length_split {A} (f : A -> bool) (l : list A) :
  length (filter (fun x => negb (f x)) l) + length (filter f l) = length l.
Proof.
  induction l as [|x l IH]; [reflexivity|].
  cbn [filter]. destruct (f x); cbn [negb length]; lia.
Qed.

Lemma clean_length (word : str) :
  length (clean word) + punct_count word = length word.
Proof. rewrite clean_filter. apply filter_length_split. Qed.

Lemma clean_In (word : str) (c : char) : In c (clean word) -> In c word.
Proof. rewrite clean_filter. intros H. now apply filter_In in H. Qed.

Lemma clean_app (a b : str) : clean (a ++ b) = clean a ++ clean b.
Proof. rewrite !clean_filter. apply filter_app. Qed.

Lemma clean_words (a : str) :
  Forall (fun c => Ch.isword c = true) a -> clean a = a.
Proof.
  rewrite clean_filter. induction 1 as [|c a Hc _ IH]; [reflexivity|].
  cbn [filter]. unfold punct at 1. rewrite Hc. cbn [orb negb]. now rewrite IH.
Qed.

Lemma clean_punct (p : str) :
  Forall (fun c => punct c = true) p -> clean p = [].
Proof.
  rewrite clean_filter. induction 1 as [|c p Hc _ IH]; [reflexivity|].
  cbn [filter]. rewrite Hc. exact IH.
Qed.

Lemma punct_count_app (a b : str) :
  punct_count (a ++ b) = punct_count a + punct_count b.
Proof. unfold punct_count. now rewrite filter_app, length_app. Qed.

Lemma punct_count_words (a : str) :
  Forall (fun c => Ch.isword c = true) a -> punct_count a = 0.
Proof.
  intros H. pose proof (clean_length a) as Hl.
  rewrite (clean_words a H) in Hl. lia.
Qed.
End Tokens.

(** ** The linking rule *)

Section Linking.
Context {U : UnicodeData}.

Lemma in_common_words_In (w : str) :
  in_common_words w = true <-> In w common_words.
Proof.
  unfold in_common_words. rewrite existsb_exists. split.
  - intros (x & Hx & Heq). apply str_eqb_eq in Heq. now subst.
  - intros H. exists w. split; [assumption | now apply str_eqb_eq].
Qed.

(** The condition never raises, and it holds exactly on eligible words. *)
Lemma should_link_spec (cw : str) :
  (should_link cw = Ok true /\ eligible cw)
  \/ (should_link cw = Ok false /\ ~ eligible cw).
Proof.
  unfold should_link, eligible.
  destruct cw as [|c t]; cbn [PyStr.truthy].
  - right. split; [reflexivity|]. intros [H _]. now apply H.
  - cbn [getitem nth_error rbind].
    change (PyStr.isupper [c]) with (Ch.isupper c).
    destruct (Ch.isupper c) eqn:Hup.
    2:{ right. split; [reflexivity|].
        intros (_ & (c' & t' & Heq & Hc') & _). inversion Heq; subst. congruence. }
    destruct (in_common_words (c :: t)) eqn:Hcommon; cbn [negb].
    { right. split; [reflexivity|].
      intros (_ & _ & Hnot & _). apply Hnot. now apply in_common_words_In. }
    destruct (PyStr.isupper (c :: t)) eqn:Hall; cbn [negb].
    { right. split; [reflexivity|]. intros (_ & _ & _ & H & _). discriminate H. }
    destruct (1 <? length (c :: t)) eqn:Hlen.
    + left. split; [reflexivity|]. apply Nat.ltb_lt in Hlen.
      repeat split; try assumption; try discriminate.
      * exists c, t. now split.
      * intros Hin. apply in_common_words_In in Hin. congruence.
    + right. split; [reflexivity|]. apply Nat.ltb_ge in Hlen.
      intros (_ & _ & _ & _ & H). lia.
Qed.

Lemma link_word_spec (word : str) :
  (link_word word
     = Ok (brackets (clean word) (PyStr.slice_from word (length (clean word))))
   /\ eligible (clean word))
  \/ (link_word word = Ok word /\ ~ eligible (clean word)).
Proof.
  unfold link_word.
  destruct (should_link_spec (clean word)) as [[-> H] | [-> H]]; cbn [rbind];
    [left | right]; now split.
Qed.

Lemma brackets_length (cw p : str) :
  length (brackets cw p) = 4 + length cw + length p.
Proof.
  unfold brackets. rewrite !length_app. cbn [py list_ascii_of_string map length]. lia.
Qed.

Lemma brackets_differ (word : str) :
  brackets (clean word) (PyStr.slice_from word (length (clean word))) <> word.
Proof.
  intros H. apply (f_equal (@length _)) in H.
  rewrite brackets_length in H. unfold PyStr.slice_from in H.
  rewrite length_skipn in H. pose proof (clean_length word). lia.
Qed.

Lemma brackets_In (cw p : str) (c : char) :
  In c (brackets cw p) -> In c (py "[]") \/ In c cw \/ In c p.
Proof.
  unfold brackets. rewrite !in_app_iff. cbn. tauto.
Qed.

(** Linking brings no whitespace into a token. *)
Lemma link_word_nonspace (word out : str) :
  Forall (fun c => Ch.isspace c = false) word ->
  link_word word = Ok out ->
  Forall (fun c => Ch.isspace c = false) out.
Proof.
  intros Hw Hl. rewrite Forall_forall in Hw.
  destruct (link_word_spec word) as [[He _] | [He _]]; rewrite He in Hl;
    inversion Hl; subst out; [|now apply Forall_forall].
  apply Forall_forall. intros c Hc.
  apply brackets_In in Hc as [Hc | [Hc | Hc]].
  - cbn in Hc. destruct Hc as [<- | [<- | []]]; reflexivity.
  - apply Hw, clean_In, Hc.
  - apply Hw. unfold PyStr.slice_from in Hc.
    rewrite <- (firstn_skipn (length (clean word)) word).
    apply in_or_app. now right.
Qed.

(** The loop ends without an exception, on tokens without whitespace. *)
Lemma for_each_link_word (words : list str) :
  Forall (fun w => w <> [] /\ Forall (fun c => Ch.isspace c = false) w) words ->
  exists outs,
    for_each link_word words = Ok outs
    /\ Forall2 (fun w o => link_word w = Ok o) words outs
    /\ Forall (Forall (fun c => Ch.isspace c = false)) outs.
Proof.
  induction 1 as [|w words [_ Hw] _ (outs & Ho & H2 & Hs)].
  - exists []. repeat split; constructor.
  - assert (exists o, link_word w = Ok o) as (o & Hlink).
    { destruct (link_word_spec w) as [[He _] | [He _]]; eauto. }
    exists (o :: outs). cbn [for_each]. rewrite Hlink, Ho. cbn [rbind].
    repeat split; constructor; try assumption.
    eapply link_word_nonspace; eassumption.
Qed.
End Linking.

(** ** The whole pipeline *)

Section PipelineFacts.
Context {U : UnicodeData}.

Lemma join_In (sep : str) (l : list str) (c : char) :
  In c (PyStr.join sep l) -> In c sep \/ exists w, In w l /\ In c w.
Proof.
  induction l as [|w l IH]; [intros []|].
  destruct l as [|w' l].
  - cbn [PyStr.join]. intros H. right. exists w. split; [now left | assumption].
  - change (PyStr.join sep (w :: w' :: l)) with (w ++ sep ++ PyStr.join sep (w' :: l)).
    rewrite !in_app_iff. intros [H | [H | H]].
    + right. exists w. split; [now left | assumption].
    + now left.
    + destruct (IH H) as [Hs | (x & Hx & Hc)]; [now left|].
      right. exists x. split; [now right | assumption].
Qed.

Lemma lstrip_In (s : str) (c : char) : In c (PyStr.lstrip s) -> In c s.
Proof.
  induction s as [|x s IH]; [trivial|]. cbn [PyStr.lstrip].
  destruct (Ch.isspace x); [|trivial]. intros H. right. auto.
Qed.

Lemma strip_In (s : str) (c : char) : In c (PyStr.strip s) -> In c s.
Proof.
  unfold PyStr.strip, PyStr.rstrip. intros H.
  apply in_rev, lstrip_In in H. apply in_rev in H. now apply lstrip_In.
Qed.

(** The pipeline returns: the loop's tokens, joined and stripped. *)
Lemma process_shape (content : str) :
  exists outs,
    Forall2 (fun w o => link_word w = Ok o)
            (PyStr.split (resegment (normalize content))) outs
    /\ Forall (Forall (fun c => Ch.isspace c = false)) outs
    /\ process_supernote_content content
       = Ok (PyStr.strip (PyStr.join [SP] outs)).
Proof.
  destruct (for_each_link_word _ (split_tokens (resegment (normalize content))))
    as (outs & Ho & H2 & Hs).
  exists outs. repeat split; try assumption.
  unfold process_supernote_content. rewrite Ho. reflexivity.
Qed.

(** The only whitespace in what the pipeline returns is the space. *)
Lemma process_whitespace (content : str) :
  exists out,
    process_supernote_content content = Ok out
    /\ forall c, In c out -> Ch.isspace c = true -> c = SP.
Proof.
  destruct (process_shape content) as (outs & _ & Hs & Hp).
  eexists. split; [exact Hp|]. intros c Hin Hc.
  apply strip_In, join_In in Hin as [[H | []] | (w & Hw & Hcw)]; [now symmetry|].
  rewrite Forall_forall in Hs. specialize (Hs w Hw).
  rewrite Forall_forall in Hs. rewrite (Hs c Hcw) in Hc. discriminate Hc.
Qed.

(** C1. On ["Hello world. Next sentence here."] the third statement does
    put two newlines between ["world."] and ["Next"], and what the
    pipeline returns has a single space there. *)
Theorem resegmentation_lost_in_output :
  resegment (normalize (py "Hello world. Next sentence here."))
  = py "Hello world." ++ [LF; LF] ++ py "Next sentence here."
  /\ process_supernote_content (py "Hello world. Next sentence here.")
     = Ok (py "[[Hello]] world. [[Next]] sentence here.").
Proof. split; vm_compute; reflexivity. Qed.

(** C2. Whatever the input, the pipeline returns a string without a
    newline: the only whitespace character left in it is the space that
    joins the tokens. *)
Theorem output_has_no_newline (content : str) :
  exists out,
    process_supernote_content content = Ok out
    /\ ~ In LF out
    /\ (forall c, In c out -> Ch.isspace c = true -> c = SP).
Proof.
  destruct (process_whitespace content) as (out & Hp & Hs).
  exists out. repeat split; try assumption.
  intros H. specialize (Hs LF H isspace_LF). discriminate Hs.
Qed.

(** C8. Whatever the input, neither the normalized text nor what the
    pipeline returns holds a carriage return. *)
Theorem output_has_no_carriage_return (content : str) :
  ~ In CR (normalize content)
  /\ exists out, process_supernote_content content = Ok out /\ ~ In CR out.
Proof.
  split; [apply normalize_no_CR|].
  destruct (process_whitespace content) as (out & Hp & Hs).
  exists out. split; [assumption|].
  intros H. specialize (Hs CR H isspace_CR). discriminate Hs.
Qed.

(** C9. The pipeline is a total function: on every string it returns a
    string and raises nothing. The condition of the loop never raises (its
    index is read on a non-empty word only), a token is linked without an
    exception, and the clean word is never longer than its token, so the
    slice starts inside it. *)
Theorem process_supernote_content_total :
  (forall content, exists out, process_supernote_content content = Ok out)
  /\ (forall clean_word, exists b, should_link clean_word = Ok b)
  /\ (forall word, exists out, link_word word = Ok out)
  /\ (forall word, length (clean word) <= length word).
Proof.
  split; [|split; [|split]].
  - intros content. destruct (process_whitespace content) as (out & Hp & _). eauto.
  - intros cw. destruct (should_link_spec cw) as [[H _] | [H _]]; eauto.
  - intros w. destruct (link_word_spec w) as [[H _] | [H _]]; eauto.
  - intros w. pose proof (clean_length w). lia.
Qed.

(** C3. A token is put in brackets exactly when its clean word is
    eligible: non-empty, first character uppercase, not in the stoplist,
    not all uppercase, longer than one character; any other token is left
    as it is, and so is each of the fourteen words of the stoplist. The
    pipeline turns ["The Quick Brown fox jumps."] into
    ["The [[Quick]] [[Brown]] fox jumps."]. *)
Theorem link_word_iff_eligible :
  (forall word,
      link_word word
      = Ok (brackets (clean word) (PyStr.slice_from word (length (clean word))))
      <-> eligible (clean word))
  /\ (forall word, link_word word = Ok word <-> ~ eligible (clean word))
  /\ Forall (fun word => link_word word = Ok word)
       (map py ["The"; "A"; "An"; "This"; "That"; "These"; "Those"; "I";
                "You"; "He"; "She"; "It"; "We"; "They"]%string)
  /\ process_supernote_content (py "The Quick Brown fox jumps.")
     = Ok (py "The [[Quick]] [[Brown]] fox jumps.").
Proof.
  split; [|split; [|split; [|vm_compute; reflexivity]]].
  - intros word. split.
    + intros H. destruct (link_word_spec word) as [[_ He] | [Hw _]]; [assumption|].
      rewrite Hw in H. inversion H as [Heq]. symmetry in Heq.
      now apply brackets_differ in Heq.
    + intros He. destruct (link_word_spec word) as [[Hw _] | [_ Hn]];
        [assumption | contradiction].
  - intros word. split.
    + intros H He. destruct (link_word_spec word) as [[Hw _] | [_ Hn]];
        [|contradiction].
      rewrite Hw in H. inversion H as [Heq]. now apply brackets_differ in Heq.
    + intros Hn. destruct (link_word_spec word) as [[_ He] | [Hw _]];
        [contradiction | assumption].
  - repeat constructor.
Qed.
End PipelineFacts.

(** ** Punctuation around a linked word *)

Section Punctuation.
Context {U : UnicodeData}.

Lemma clean_trailing (a p : str) :
  Forall (fun c => Ch.isword c = true) a ->
  Forall (fun c => punct c = true) p ->
  clean (a ++ p) = a.
Proof.
  intros Ha Hp. rewrite clean_app, (clean_words a Ha), (clean_punct p Hp).
  apply app_nil_r.
Qed.

Lemma slice_trailing (a p : str) :
  PyStr.slice_from (a ++ p) (length a) = p.
Proof.
  unfold PyStr.slice_from. rewrite skipn_app, skipn_all, Nat.sub_diag. reflexivity.
Qed.

(** C4. The pipeline turns ["Paris, France."] into
    ["[[Paris]], [[France]]."]; and a token made of an eligible word
    followed by punctuation only is linked with all of that punctuation
    after the closing brackets. *)
Theorem trailing_punctuation_kept_outside :
  process_supernote_content (py "Paris, France.")
  = Ok (py "[[Paris]], [[France]].")
  /\ (forall a p : str,
        Forall (fun c => Ch.isword c = true) a ->
        Forall (fun c => punct c = true) p ->
        eligible a ->
        link_word (a ++ p) = Ok (py "[[" ++ a ++ py "]]" ++ p)).
Proof.
  split; [vm_compute; reflexivity|].
  intros a p Ha Hp He.
  destruct (link_word_spec (a ++ p)) as [[Hl _] | [_ Hn]].
  - rewrite Hl, (clean_trailing a p Ha Hp), slice_trailing. reflexivity.
  - rewrite (clean_trailing a p Ha Hp) in Hn. contradiction.
Qed.

(** The text put after the brackets: [word[len(clean_word):]]. *)
Lemma appended_length (word : str) :
  length (PyStr.slice_from word (length (clean word))) = punct_count word.
Proof.
  unfold PyStr.slice_from. rewrite length_skipn.
  pose proof (clean_length word). lia.
Qed.

Lemma appended_letters (x b : str) :
  Forall (fun c => Ch.isword c = true) b ->
  punct_count x <= length b ->
  Forall (fun c => Ch.isword c = true)
         (PyStr.slice_from (x ++ b) (length (clean (x ++ b)))).
Proof.
  intros Hb Hle. unfold PyStr.slice_from.
  pose proof (clean_length (x ++ b)) as Hl.
  rewrite punct_count_app, (punct_count_words b Hb), length_app in Hl.
  rewrite skipn_app.
  rewrite skipn_all2 by lia. cbn [app].
  rewrite <- (firstn_skipn (length (clean (x ++ b)) - length x) b) in Hb.
  apply Forall_app in Hb. apply Hb.
Qed.

Lemma appended_ends_with_punct (x : str) (c : char) :
  punct c = true ->
  skipn (length (clean (x ++ [c]))) (x ++ [c])
  = skipn (length (clean (x ++ [c]))) x ++ [c].
Proof.
  intros Hc. pose proof (clean_length x) as Hl.
  assert (Hcl : clean (x ++ [c]) = clean x).
  { rewrite clean_app, (clean_punct [c]) by (now repeat constructor).
    apply app_nil_r. }
  rewrite Hcl, skipn_app.
  replace (length (clean x) - length x) with 0 by lia. reflexivity.
Qed.

(** C5, as the code has it. The clean word is the token without its
    characters that are neither word characters nor whitespace, wherever
    they stand; a linked token is the bracketed clean word followed by the
    token from index [len(clean_word)] on, as many characters as were
    deleted. After a word with trailing punctuation only, that text is the
    punctuation. With punctuation before or inside the word, the text is
    the end of the token: made of word characters when the token ends with
    at least as many of them as it has punctuation (["O'Brien"] becomes
    ["[[OBrien]]n"], and a quotation mark before ["Hello"] gives
    ["[[Hello]]o"]), and holding punctuation otherwise: a token that ends
    with a punctuation mark keeps that mark at the end of the text, and
    ["A.b.c"] becomes ["[[Abc]].c"]. *)
Theorem clean_word_and_appended_text :
  (forall word, clean word = filter (fun c => negb (punct c)) word)
  /\ (forall word,
        eligible (clean word) ->
        link_word word
        = Ok (py "[[" ++ clean word ++ py "]]"
              ++ skipn (length (clean word)) word))
  /\ (forall word,
        length (skipn (length (clean word)) word) = punct_count word)
  /\ (forall a p : str,
        Forall (fun c => Ch.isword c = true) a ->
        Forall (fun c => punct c = true) p ->
        skipn (length (clean (a ++ p))) (a ++ p) = p)
  /\ (forall x b : str,
        Forall (fun c => Ch.isword c = true) b ->
        punct_count x <= length b ->
        Forall (fun c => Ch.isword c = true)
               (skipn (length (clean (x ++ b))) (x ++ b)))
  /\ link_word (py "O'Brien") = Ok (py "[[OBrien]]n")
  /\ link_word (34%N :: py "Hello") = Ok (py "[[Hello]]o")
  /\ (forall (x : str) (c : char),
        punct c = true ->
        skipn (length (clean (x ++ [c]))) (x ++ [c])
        = skipn (length (clean (x ++ [c]))) x ++ [c])
  /\ link_word (py "A.b.c") = Ok (py "[[Abc]].c").
Proof.
  split; [exact clean_filter|].
  split.
  { intros word He.
    destruct (link_word_spec word) as [[Hl _] | [_ Hn]]; [exact Hl | contradiction]. }
  split; [exact appended_length|].
  split.
  { intros a p Ha Hp. rewrite (clean_trailing a p Ha Hp). apply slice_trailing. }
  split; [exact appended_letters|].
  split; [vm_compute; reflexivity|].
  split; [vm_compute; reflexivity|].
  split; [exact appended_ends_with_punct|].
  vm_compute; reflexivity.
Qed.
End Punctuation.

(** ** The orchestration *)

Section FileErrors.
Context {U : UnicodeData} {E : Env}.



Lemma try_except_caught {A} (body : io A) (handler : exn -> io A)
    (st st1 : state) (e : exn) :
  body st = (Raise e, st1) -> is_Exception e = true ->
  try_except body handler st = handler e st1.
Proof. intros Hb He. unfold try_except. now rewrite Hb, He. Qed.

Lemma print_written (line : str) (st : state) :
  stdout_error line (world st) = None ->
  print line st
  = (Ok tt, {| world := world st; stdout := stdout st ++ [line];
               template_content := template_content st |}).
Proof. intros H. unfold print. now rewrite H. Qed.

Lemma print_raises (line : str) (st : state) (e : exn) :
  stdout_error line (world st) = Some e -> print line st = (Raise e, st).
Proof. intros H. unfold print. now rewrite H. Qed.

(** What the handler of [process_supernote_file] is given. *)
Lemma file_error_caught (file_path : str) (date : datetime) (st st1 : state) (e : exn) :
  process_supernote_file_body file_path date st = (Raise e, st1) ->
  is_Exception e = true ->
  process_supernote_file file_path date st
  = print (py "Error processing " ++ file_path ++ py ": " ++ exn_str e) st1.
Proof.
  intros Hb He. unfold process_supernote_file.
  now rewrite (try_except_caught _ _ st st1 e Hb He).
Qed.


Lemma note_error_caught (file_path : str) (date : datetime) (st : state)
    (content : str) (w1 : World) (e : exn) (st2 : state) :
  read_text file_path (world st) = (Ok content, w1) ->
  ensure_daily_note_exists date
    {| world := w1; stdout := stdout st;
       template_content := template_content st |} = (Raise e, st2) ->
  is_Exception e = true ->
  process_supernote_file file_path date st
  = print (py "Error processing " ++ file_path ++ py ": " ++ exn_str e) st2.
Proof.
  intros Hr Hen He. apply file_error_caught; [|exact He].
  unfold process_supernote_file_body, bind, call, pure. rewrite Hr.
  destruct (process_whitespace content) as (out & -> & _).
  now rewrite Hen.
Qed.


Lemma append_error_caught (note_path content : str) (st : state) (e : exn) (w : World) :
  patch_content note_path (py "heading") config.NOTE_SECTION_HEADING
    (py "append") ([LF] ++ content ++ [LF]) (world st) = (Raise e, w) ->
  is_Exception e = true ->
  add_to_daily_note note_path content st
  = print (py "Error adding content to daily note: " ++ exn_str e)
      {| world := w; stdout := stdout st; template_content := template_content st |}.
Proof.
  intros Hp He. unfold add_to_daily_note.
  rewrite (try_except_caught _ _ st
             {| world := w; stdout := stdout st;
                template_content := template_content st |} e);
    [reflexivity | | exact He].
  unfold call. now rewrite Hp.
Qed.



Section Printed.
(** Every line can be printed. *)
Hypothesis print_ok : forall line w, stdout_error line w = None.



End Printed.

End FileErrors.

(** ** The statements at concrete inputs *)

Lemma Rome_eligible : @eligible ascii_only (py "Rome").
Proof.
  unfold eligible. split; [discriminate|].
  split; [exists 82%N, (py "ome"); split; reflexivity|].
  split.
  { intros H. apply in_common_words_In in H. discriminate H. }
  split; [reflexivity | cbn; lia].
Defined.

Lemma trailing_punctuation_kept_outside_witness :
  @link_word ascii_only (py "Rome" ++ py "!?") = Ok (py "[[Rome]]!?").
Proof.
  apply (proj2 (@trailing_punctuation_kept_outside ascii_only) (py "Rome") (py "!?")).
  - repeat constructor.
  - repeat constructor.
  - exact Rome_eligible.
Defined.

Lemma clean_word_and_appended_text_witness :
  Forall (fun c => @Ch.isword ascii_only c = true)
         (skipn (length (@clean ascii_only (py "d'Artagnan")))
                (py "d'Artagnan")).
Proof.
  apply (proj1 (proj2 (proj2 (proj2 (proj2
           (@clean_word_and_appended_text ascii_only)))))
           (py "d'") (py "Artagnan")).
  - repeat constructor.
  - vm_compute. lia.
Defined.

Lemma normalizer_collapses_blank_lines_witness :
  @normalize ascii_only (py "one" ++ newlines 5 ++ py "two")
  = py "one" ++ [LF; LF] ++ py "two".
Proof.
  apply (proj1 (proj2 (@normalizer_collapses_blank_lines ascii_only))
           (py "one") 5 116%N (py "wo")).
  - lia.
  - cbn. intuition discriminate.
  - cbn. intuition discriminate.
  - reflexivity.
Defined.



(** The token ["A.b.c"] has punctuation inside; its clean word ["Abc"] is
    linked, and the text after the brackets is [".c"], with a full stop. *)
Lemma appended_text_counterexample :
  @link_word ascii_only (py "A.b.c") = Ok (py "[[Abc]].c")
  /\ skipn (length (@clean ascii_only (py "A.b.c"))) (py "A.b.c") = py ".c"
  /\ ~ Forall (fun c => @Ch.isword ascii_only c = true)
         (skipn (length (@clean ascii_only (py "A.b.c"))) (py "A.b.c")).
Proof.
  split; [reflexivity|]. split; [reflexivity|].
  intros H. change (skipn _ _) with (py ".c") in H.
  inversion H as [|? ? Hdot _]. discriminate Hdot.
Qed.

(** A run of [main] over the world in memory: the unreadable export is
    reported, the readable one is appended to the day's note and marked, the
    marked one is passed over. *)
Example toy_main_run :
  let (r, st) := @main ascii_only toy toy_start in
  r = Ok tt
  /\ stdout st = [py "Error processing Supernote Exports/one.txt: cannot read"]
  /\ map fst (exports (world st))
     = [py "one.txt"; py "two.txt.processed"; py "old.txt.processed"]
  /\ lookup (py "Daily Notes/2024-01-15.md") (vault (world st))
     = Some (py "# 2024-01-15 09:30" ++ [LF] ++ py "[[Paris]], [[France]]." ++ [LF]).
Proof. vm_compute. repeat split. Qed.

(** ** What the tokenizer sees *)

Section Tokenizer.
Context {U : UnicodeData}.

Abbreviation ws := (fun c : char => Ch.isspace c = true).
Abbreviation nonspace := (fun c : char => Ch.isspace c = false).

Lemma split_from_space (cur : str) (c : char) (s : str) :
  Ch.isspace c = true ->
  PyStr.split_from cur (c :: s) = flush cur ++ PyStr.split_from [] s.
Proof.
  intros Hc. cbn [PyStr.split_from]. rewrite Hc. destruct cur; reflexivity.
Qed.

Lemma split_from_nil_ws (w s : str) :
  Forall ws w -> PyStr.split_from [] (w ++ s) = PyStr.split_from [] s.
Proof.
  induction 1 as [|c w Hc _ IH]; [reflexivity|].
  cbn [app]. rewrite split_from_space by assumption. exact IH.
Qed.

(** A non-empty run of whitespace closes the token being read. *)
Lemma split_from_ws (cur w s : str) :
  Forall ws w -> w <> [] ->
  PyStr.split_from cur (w ++ s) = flush cur ++ PyStr.split_from [] s.
Proof.
  intros Hw Hne. destruct Hw as [|c w Hc Hw]; [contradiction|].
  cbn [app]. rewrite split_from_space by assumption.
  now rewrite split_from_nil_ws.
Qed.

(** Characters that are not whitespace go to the token being read. *)
Lemma split_from_word (cur w s : str) :
  Forall nonspace w ->
  PyStr.split_from cur (w ++ s) = PyStr.split_from (rev w ++ cur) s.
Proof.
  intros Hw. revert cur. induction Hw as [|c w Hc _ IH]; intros cur; [reflexivity|].
  cbn [app PyStr.split_from rev]. rewrite Hc, IH, <- app_assoc. reflexivity.
Qed.

Lemma firstn_cons_ws (n : nat) (c : char) (t : str) :
  Forall ws (firstn (S n) (c :: t)) -> Ch.isspace c = true /\ Forall ws (firstn n t).
Proof. cbn [firstn]. intros H. now inversion H. Qed.

(** Replacing whitespace by whitespace changes no token: [re.sub]. *)
Lemma split_sub_from (p : Re.pattern) (r : str) :
  ws_matches p -> Forall ws r -> r <> [] ->
  forall s skip prev cur,
    skip = 0 \/ cur = [] ->
    Forall ws (firstn skip s) ->
    PyStr.split_from cur (Re.sub_from p r skip prev s) = PyStr.split_from cur s.
Proof.
  intros Hp Hr Hne. induction s as [|c t IH]; intros skip prev cur Hsc Hskip.
  - cbn [Re.sub_from]. destruct skip; [|reflexivity].
    destruct (Re.match_here p prev []) as [n|] eqn:Hm; [|reflexivity].
    apply Hp in Hm as [Hn _]. cbn [length] in Hn. lia.
  - cbn [Re.sub_from]. destruct skip as [|k].
    + destruct (Re.match_here p prev (c :: t)) as [[|n]|] eqn:Hm.
      * apply Hp in Hm as [Hn _]. lia.
      * apply Hp in Hm as [_ Hw]. apply firstn_cons_ws in Hw as [Hc Hw].
        rewrite split_from_ws, split_from_space by assumption.
        f_equal. apply IH; [now right | assumption].
      * cbn [PyStr.split_from].
        destruct (Ch.isspace c); [destruct cur; [|f_equal]|];
          apply IH; auto; constructor.
    + apply firstn_cons_ws in Hskip as [Hc Hw].
      destruct Hsc as [Hsc | ->]; [discriminate|].
      rewrite split_from_space by assumption. cbn [flush app].
      apply IH; [now right | assumption].
Qed.

Lemma startswith_firstn (old s : str) :
  PyStr.startswith s old = true -> firstn (length old) s = old.
Proof.
  revert s; induction old as [|x old IH]; intros s; [reflexivity|].
  destruct s as [|c s]; cbn [PyStr.startswith]; [discriminate|].
  intros H. apply andb_true_iff in H as [Hc Hs].
  apply char_eqb_eq in Hc. subst c. cbn [length firstn]. now rewrite IH.
Qed.

(** Replacing whitespace by whitespace changes no token: [str.replace]. *)
Lemma split_replace_from (old new : str) :
  Forall ws old -> old <> [] -> Forall ws new -> new <> [] ->
  forall s skip cur,
    skip = 0 \/ cur = [] ->
    Forall ws (firstn skip s) ->
    PyStr.split_from cur (PyStr.replace_from old new skip s) = PyStr.split_from cur s.
Proof.
  intros Ho Hone Hn Hnne. induction s as [|c t IH]; intros skip cur Hsc Hskip;
    [reflexivity|].
  cbn [PyStr.replace_from]. destruct skip as [|k].
  - destruct (PyStr.startswith (c :: t) old) eqn:Hs.
    + apply startswith_firstn in Hs. destruct old as [|x old]; [contradiction|].
      cbn [length firstn] in Hs. injection Hs as -> Hs.
      inversion Ho as [|? ? Hx Hold]; subst.
      rewrite split_from_ws, split_from_space by assumption.
      f_equal. apply IH; [now right|].
      replace (length (x :: old) - 1) with (length old) by (cbn [length]; lia).
      rewrite Hs. exact Hold.
    + cbn [PyStr.split_from].
      destruct (Ch.isspace c); [destruct cur; [|f_equal]|];
        apply IH; auto; constructor.
  - apply firstn_cons_ws in Hskip as [Hc Hw].
    destruct Hsc as [Hsc | ->]; [discriminate|].
    rewrite split_from_space by assumption. cbn [flush app].
    apply IH; [now right | assumption].
Qed.

(** Greedy repetition keeps what its continuation keeps. *)
Lemma star_matched (cls : char -> bool) (k : option char -> str -> option nat) :
  (forall prev s n, k prev s = Some n ->
     n <= length s /\ Forall (fun c => cls c = true) (firstn n s)) ->
  forall s prev n, Re.star cls k prev s = Some n ->
     n <= length s /\ Forall (fun c => cls c = true) (firstn n s).
Proof.
  intros Hk. induction s as [|c t IH]; intros prev n; [apply Hk|].
  rewrite star_cons. destruct (cls c) eqn:Hc; [|apply Hk].
  destruct (Re.star cls k (Some c) t) as [m|] eqn:Hm; [|apply Hk].
  intros [= <-]. apply IH in Hm as [Hl Hf]. cbn [length firstn].
  split; [lia | now constructor].
Qed.

Lemma blank_lines_ws_matches : ws_matches blank_lines.
Proof.
  intros prev s n Hm. split; [|eapply blank_lines_matched, Hm].
  pose proof (blank_lines_spec s prev) as H. rewrite Hm in H. lia.
Qed.

Lemma sentence_gap_ws_matches : ws_matches sentence_gap.
Proof.
  intros prev s n. unfold sentence_gap. cbn [Re.match_here].
  destruct prev as [p|]; [|discriminate].
  destruct (Re.one_of (py ".!?") p); [|discriminate].
  destruct s as [|c t]; [discriminate|].
  destruct (Ch.isspace c) eqn:Hc; [|discriminate].
  destruct (Re.star _ _ _ _) as [m|] eqn:Hm; [|discriminate].
  cbn [option_map]. intros [= <-].
  apply star_matched in Hm as [Hl Hf].
  - cbn [length firstn]. split; [lia | now constructor].
  - intros prev' s' n'.
    destruct s' as [|c' t']; [discriminate|].
    destruct (Ch.in_range 65 90 c'); [|discriminate].
    intros [= <-]. split; [cbn; lia | constructor].
Qed.

Lemma split_after_passes (content : str) :
  PyStr.split (resegment (normalize content)) = PyStr.split content.
Proof.
  unfold resegment, normalize, PyStr.split, Re.sub, PyStr.replace.
  rewrite (split_sub_from _ _ sentence_gap_ws_matches)
    by (try (now left); try discriminate; repeat constructor).
  rewrite (split_sub_from _ _ blank_lines_ws_matches)
    by (try (now left); try discriminate; repeat constructor).
  rewrite split_replace_from
    by (try (now left); try discriminate; repeat constructor).
  apply split_replace_from;
    try (now left); try discriminate; repeat constructor.
Qed.

(** X1. The three statements before the loop change no token:
    [split] gives the same list on the text they return as on the input. *)
Theorem preprocessing_keeps_tokens (content : str) :
  PyStr.split (resegment (normalize content)) = PyStr.split content.
Proof. exact (split_after_passes content). Qed.

Abbreviation token := (fun w : str => w <> [] /\ Forall nonspace w).

Lemma flush_rev (w : str) : w <> [] -> flush (rev w) = [w].
Proof.
  intros H. destruct (rev w) as [|x r] eqn:Hr.
  - apply (f_equal (@rev _)) in Hr. rewrite rev_involutive in Hr. contradiction.
  - cbn [flush]. now rewrite <- Hr, rev_involutive.
Qed.

Lemma join_cons2 (sep w w' : str) (l : list str) :
  PyStr.join sep (w :: w' :: l) = w ++ sep ++ PyStr.join sep (w' :: l).
Proof. reflexivity. Qed.

Lemma join_nonempty (sep w : str) (l : list str) :
  w <> [] -> PyStr.join sep (w :: l) <> [].
Proof.
  intros Hw. destruct l as [|w' l]; [exact Hw|].
  rewrite join_cons2. destruct w; [contradiction | discriminate].
Qed.

(** Joining tokens with a space and splitting again gives the tokens. *)
Lemma split_join (l : list str) :
  Forall token l -> PyStr.split (PyStr.join [SP] l) = l.
Proof.
  unfold PyStr.split. induction 1 as [|w l [Hne Hw] Hl IH]; [reflexivity|].
  destruct l as [|w' l].
  - cbn [PyStr.join]. rewrite <- (app_nil_r w) at 1.
    rewrite split_from_word by assumption. rewrite app_nil_r.
    cbn [PyStr.split_from]. now apply flush_rev.
  - rewrite join_cons2, split_from_word by assumption. rewrite app_nil_r.
    cbn [app]. rewrite split_from_space by reflexivity.
    rewrite IH, flush_rev by assumption. reflexivity.
Qed.

Lemma lstrip_fixed (x : str) :
  match x with c :: _ => Ch.isspace c = false | [] => True end ->
  PyStr.lstrip x = x.
Proof. destruct x as [|c t]; [reflexivity|]. cbn [PyStr.lstrip]. now intros ->. Qed.

Lemma rstrip_fixed (x : str) :
  Ch.isspace (last x 0%N) = false -> PyStr.rstrip x = x.
Proof.
  intros H. unfold PyStr.rstrip. destruct x as [|c t]; [reflexivity|].
  rewrite (app_removelast_last 0%N (l := c :: t)) at 1 2 by discriminate.
  rewrite rev_unit. cbn [PyStr.lstrip]. rewrite H.
  rewrite <- rev_unit, rev_involutive. reflexivity.
Qed.

Lemma last_In (w : str) (d : char) : w <> [] -> In (last w d) w.
Proof.
  induction w as [|c w IH]; [contradiction|]. intros _.
  destruct w as [|c' w]; [now left|]. right. apply IH. discriminate.
Qed.

Lemma last_join (l : list str) :
  Forall token l -> Ch.isspace (last (PyStr.join [SP] l) 0%N) = false.
Proof.
  induction 1 as [|w l [Hne Hw] Hl IH]; [reflexivity|].
  destruct l as [|w' l].
  - cbn [PyStr.join]. rewrite Forall_forall in Hw. apply Hw, last_In, Hne.
  - rewrite join_cons2.
    inversion Hl as [|? ? [Hne' _] _]; subst.
    destruct (PyStr.join [SP] (w' :: l)) as [|c J] eqn:HJ;
      [now apply join_nonempty in HJ|].
    rewrite app_assoc, last_app_cons. exact IH.
Qed.

(** The final [strip] finds nothing to remove. *)
Lemma strip_join (l : list str) :
  Forall token l -> PyStr.strip (PyStr.join [SP] l) = PyStr.join [SP] l.
Proof.
  intros Hl. unfold PyStr.strip. rewrite lstrip_fixed.
  - apply rstrip_fixed, last_join, Hl.
  - destruct Hl as [|w l [Hne Hw] Hl]; [exact I|].
    destruct w as [|c w]; [contradiction|]. inversion Hw; subst.
    destruct l; assumption.
Qed.

Lemma link_word_token (word out : str) :
  token word -> link_word word = Ok out -> token out.
Proof.
  intros [Hne Hw] Hl. split; [|eapply link_word_nonspace; eassumption].
  destruct (link_word_spec word) as [[He _] | [He _]]; rewrite He in Hl;
    inversion Hl; subst out; [discriminate | assumption].
Qed.

Lemma Forall2_token (words outs : list str) :
  Forall token words ->
  Forall2 (fun w o => link_word w = Ok o) words outs ->
  Forall token outs.
Proof.
  intros Hw H2. induction H2 as [|w o words outs Hl _ IH]; [constructor|].
  inversion Hw; subst. constructor; [eapply link_word_token; eassumption | auto].
Qed.

(** What the pipeline returns, in terms of the tokens of its input. *)
Lemma process_tokens (content : str) :
  exists outs,
    Forall2 (fun w o => link_word w = Ok o) (PyStr.split content) outs
    /\ Forall token outs
    /\ process_supernote_content content = Ok (PyStr.join [SP] outs).
Proof.
  destruct (process_shape content) as (outs & H2 & _ & Hp).
  rewrite split_after_passes in H2.
  assert (Ht : Forall token outs)
    by (eapply Forall2_token; [apply split_tokens | exact H2]).
  exists outs. rewrite Hp, strip_join by assumption. now repeat split.
Qed.

(** X2. The pipeline returns the tokens of its input, each one linked or
    left as the loop body decides, joined by single spaces; splitting what
    it returns gives those tokens back, so the result has as many tokens as
    the input, no whitespace at either end and no two spaces in a row. *)
Theorem output_is_the_linked_tokens (content : str) :
  exists outs,
    Forall2 (fun w o => link_word w = Ok o) (PyStr.split content) outs
    /\ process_supernote_content content = Ok (PyStr.join [SP] outs)
    /\ PyStr.split (PyStr.join [SP] outs) = outs
    /\ length outs = length (PyStr.split content).
Proof.
  destruct (process_tokens content) as (outs & H2 & Ht & Hp).
  exists outs. repeat split; try assumption.
  - now apply split_join.
  - symmetry. eapply Forall2_length, H2.
Qed.

Lemma split_from_nil_iff (s cur : str) :
  PyStr.split_from cur s = [] <-> cur = [] /\ Forall ws s.
Proof.
  revert cur; induction s as [|c t IH]; intros cur; cbn [PyStr.split_from].
  - destruct cur; split; [auto | auto | discriminate | intros [H _]; discriminate H].
  - destruct (Ch.isspace c) eqn:Hc.
    + destruct cur as [|x cur].
      * rewrite IH. split; intros [H1 H2]; split; auto.
        now inversion H2.
      * split; [discriminate | intros [H _]; discriminate H].
    + rewrite IH. split; [intros [H _]; discriminate H|].
      intros [_ H]. inversion H; congruence.
Qed.

(** X3. The pipeline returns the empty string exactly on the inputs made
    of whitespace only, the empty input among them. *)
Theorem empty_output_iff_blank_input (content : str) :
  process_supernote_content content = Ok [] <-> Forall ws content.
Proof.
  destruct (process_tokens content) as (outs & H2 & Ht & Hp).
  rewrite Hp. split.
  - intros [= Hj]. destruct outs as [|o outs].
    + inversion H2 as [Hs|]. symmetry in Hs.
      now apply (split_from_nil_iff content []) in Hs.
    + inversion Ht as [|? ? [Hne _] _]; subst.
      now apply join_nonempty in Hj.
  - intros Hw.
    assert (Hs : PyStr.split content = [])
      by (apply split_from_nil_iff; now split).
    rewrite Hs in H2. inversion H2. reflexivity.
Qed.
End Tokenizer.

(** ** Sentence boundaries *)

Section Resegment.
Context {U : UnicodeData}.

Abbreviation ws := (fun c : char => Ch.isspace c = true).
Abbreviation ahead := (Re.match_here [Re.Ahead (Ch.in_range 65 90)]).
Abbreviation gap := (Re.sub_from sentence_gap [LF; LF]).

Lemma capital_not_space (c : char) : Ch.in_range 65 90 c = true -> Ch.isspace c = false.
Proof.
  unfold Ch.in_range, Ch.isspace, Ch.is_ascii. intros H.
  apply andb_true_iff in H as [H1 H2]. apply N.leb_le in H1, H2.
  replace (c <? 128)%N with true by (symmetry; apply N.ltb_lt; lia).
  apply orb_false_iff. split; apply andb_false_iff.
  - right. apply N.leb_gt. lia.
  - right. apply N.leb_gt. lia.
Qed.

Lemma terminal_not_space (c : char) : Re.one_of (py ".!?") c = true -> Ch.isspace c = false.
Proof.
  unfold Re.one_of. cbn [py list_ascii_of_string map existsb].
  rewrite !orb_true_iff, !char_eqb_eq.
  intros [-> | [-> | [-> | H]]]; [reflexivity .. | discriminate H].
Qed.

Lemma space_not_terminal (c : char) : Ch.isspace c = true -> Re.one_of (py ".!?") c = false.
Proof.
  intros H. destruct (Re.one_of (py ".!?") c) eqn:Ht; [|reflexivity].
  apply terminal_not_space in Ht. congruence.
Qed.

Lemma ahead_cons (prev : option char) (c : char) (t : str) :
  ahead prev (c :: t) = if Ch.in_range 65 90 c then Some 0 else None.
Proof. reflexivity. Qed.

(** [\s+(?=[A-Z])] after the first character: the whole run before a
    capital, nothing before another character. *)
Lemma gap_run (w : str) (u : char) (b : str) (prev : option char) :
  Forall ws w -> Ch.in_range 65 90 u = true ->
  Re.star Ch.isspace ahead prev (w ++ u :: b) = Some (length w).
Proof.
  intros Hw Hu. revert prev. induction Hw as [|c w Hc _ IH]; intros prev.
  - cbn [app length]. rewrite star_cons, (capital_not_space u Hu), ahead_cons, Hu.
    reflexivity.
  - cbn [app length]. rewrite star_cons, Hc, IH. reflexivity.
Qed.

Lemma gap_none (w : str) (v : char) (b : str) (prev : option char) :
  Forall ws w -> Ch.isspace v = false -> Ch.in_range 65 90 v = false ->
  Re.star Ch.isspace ahead prev (w ++ v :: b) = None.
Proof.
  intros Hw Hv Hn. revert prev. induction Hw as [|c w Hc _ IH]; intros prev.
  - cbn [app]. rewrite star_cons, Hv, ahead_cons, Hn. reflexivity.
  - cbn [app]. rewrite star_cons, Hc, IH, ahead_cons.
    destruct (Ch.in_range 65 90 c) eqn:Hcap; [|reflexivity].
    apply capital_not_space in Hcap. congruence.
Qed.

Lemma gap_match (p c : char) (t : str) :
  Re.match_here sentence_gap (Some p) (c :: t)
  = if Re.one_of (py ".!?") p
    then if Ch.isspace c
         then option_map S (Re.star Ch.isspace ahead (Some c) t)
         else None
    else None.
Proof. reflexivity. Qed.

Lemma gap_match_nonspace (prev : option char) (c : char) (t : str) :
  Ch.isspace c = false -> Re.match_here sentence_gap prev (c :: t) = None.
Proof.
  intros Hc. destruct prev as [p|]; [|reflexivity].
  rewrite gap_match, Hc. now destruct (Re.one_of (py ".!?") p).
Qed.

Lemma gap_match_nil (prev : option char) : Re.match_here sentence_gap prev [] = None.
Proof.
  destruct prev as [p|]; [|reflexivity].
  change (Re.match_here sentence_gap (Some p) [])
    with (if Re.one_of (py ".!?") p then @None nat else None).
  now destruct (Re.one_of (py ".!?") p).
Qed.

Lemma gap_cons (prev : option char) (c : char) (t : str) :
  gap 0 prev (c :: t)
  = match Re.match_here sentence_gap prev (c :: t) with
    | Some (S n) => [LF; LF] ++ gap n (Some c) t
    | Some O => [LF; LF] ++ c :: gap 0 (Some c) t
    | None => c :: gap 0 (Some c) t
    end.
Proof. reflexivity. Qed.

Lemma gap_skip (k : nat) (prev : option char) (c : char) (t : str) :
  gap (S k) prev (c :: t) = gap k (Some c) t.
Proof. reflexivity. Qed.

(** A character that is not whitespace is copied. *)
Lemma gap_cons_nonspace (prev : option char) (c : char) (t : str) :
  Ch.isspace c = false -> gap 0 prev (c :: t) = c :: gap 0 (Some c) t.
Proof. intros Hc. now rewrite gap_cons, gap_match_nonspace. Qed.

Lemma ahead_local (u x : str) (prev : option char) :
  u <> [] -> Ch.isspace (last u 0%N) = false ->
  Re.star Ch.isspace ahead prev (u ++ x) = Re.star Ch.isspace ahead prev u.
Proof.
  revert prev; induction u as [|c u IH]; intros prev Hne Hlast; [contradiction|].
  destruct u as [|c' u].
  - cbn [app last] in *. rewrite !star_cons, Hlast, !ahead_cons. reflexivity.
  - cbn [app].
    rewrite (star_cons Ch.isspace _ prev c (c' :: u ++ x)),
            (star_cons Ch.isspace _ prev c (c' :: u)), !ahead_cons.
    change (c' :: u ++ x) with ((c' :: u) ++ x).
    rewrite IH by (try discriminate; exact Hlast). reflexivity.
Qed.

Lemma gap_match_local (u x : str) (prev : option char) :
  u <> [] -> Ch.isspace (last u 0%N) = false ->
  Re.match_here sentence_gap prev (u ++ x) = Re.match_here sentence_gap prev u.
Proof.
  intros Hne Hlast. destruct u as [|c u]; [contradiction|].
  destruct prev as [p|]; [|reflexivity].
  cbn [app]. rewrite !gap_match.
  destruct (Re.one_of (py ".!?") p); [|reflexivity].
  destruct (Ch.isspace c) eqn:Hc; [|reflexivity].
  destruct u as [|c' u]; [cbn [last] in Hlast; congruence|].
  change (c' :: u ++ x) with ((c' :: u) ++ x).
  rewrite ahead_local by (try discriminate; exact Hlast). reflexivity.
Qed.

Lemma last_cons2 (c c' : char) (u : str) (d : char) :
  last (c :: c' :: u) d = last (c' :: u) d.
Proof. reflexivity. Qed.

(** After text that ends with a character other than whitespace, the
    scan goes on as if it started there. *)
Lemma gap_local (u x : str) :
  forall skip prev,
    skip < length u -> Ch.isspace (last u 0%N) = false ->
    gap skip prev (u ++ x) = gap skip prev u ++ gap 0 (Some (last u 0%N)) x.
Proof.
  induction u as [|c u IH]; intros skip prev Hskip Hlast; [cbn in Hskip; lia|].
  destruct u as [|c' u].
  - cbn [length] in Hskip. assert (skip = 0) as -> by lia.
    cbn [app last] in *. rewrite !gap_cons_nonspace by assumption.
    cbn [Re.sub_from]. now rewrite gap_match_nil.
  - rewrite last_cons2 in *. cbn [app]. destruct skip as [|k].
    + rewrite (gap_cons prev c (c' :: u ++ x)), (gap_cons prev c (c' :: u)).
      change (c :: c' :: u ++ x) with ((c :: c' :: u) ++ x).
      rewrite gap_match_local by (try discriminate; exact Hlast).
      destruct (Re.match_here sentence_gap prev (c :: c' :: u)) as [[|n]|] eqn:Hm.
      * apply sentence_gap_ws_matches in Hm as [Hn _]. lia.
      * apply sentence_gap_ws_matches in Hm as [[_ Hn] Hw].
        change (c' :: u ++ x) with ((c' :: u) ++ x).
        rewrite IH; [reflexivity | | exact Hlast].
        destruct (Nat.eq_dec (S n) (length (c :: c' :: u))) as [Heq | Hneq];
          [|cbn [length] in *; lia].
        rewrite Heq, firstn_all in Hw.
        rewrite Forall_forall in Hw.
        assert (Hin : In (last (c :: c' :: u) 0%N) (c :: c' :: u))
          by (apply last_In; discriminate).
        specialize (Hw _ Hin). rewrite last_cons2 in Hw. congruence.
      * change (c' :: u ++ x) with ((c' :: u) ++ x).
        rewrite IH; [reflexivity | cbn [length]; lia | exact Hlast].
    + rewrite !gap_skip. change (c' :: u ++ x) with ((c' :: u) ++ x).
      apply IH; [cbn [length] in *; lia | exact Hlast].
Qed.

Lemma gap_skip_run (w y : str) (prev : option char) :
  w <> [] -> gap (length w) prev (w ++ y) = gap 0 (Some (last w 0%N)) y.
Proof.
  revert prev; induction w as [|c w IH]; intros prev Hne; [contradiction|].
  cbn [length app]. rewrite gap_skip. destruct w as [|c' w]; [reflexivity|].
  rewrite last_cons2. apply IH. discriminate.
Qed.

Lemma resegment_cons_nonspace (c : char) (t : str) :
  Ch.isspace c = false -> resegment (c :: t) = c :: gap 0 (Some c) t.
Proof. intros Hc. unfold resegment, Re.sub. now apply gap_cons_nonspace. Qed.

(** Whitespace that does not follow a terminal mark, or does not come
    before a capital, is copied. *)
Lemma gap_copied (w : str) (v : char) (b : str) (prev : option char) :
  Forall ws w -> Ch.isspace v = false ->
  match prev with Some q => Re.one_of (py ".!?") q = false | None => True end
  \/ Ch.in_range 65 90 v = false ->
  gap 0 prev (w ++ v :: b) = w ++ v :: gap 0 (Some v) b.
Proof.
  intros Hw Hv. revert prev. induction Hw as [|c w Hc Hw IH]; intros prev Hor.
  - cbn [app]. now apply gap_cons_nonspace.
  - cbn [app]. rewrite gap_cons.
    assert (Hm : Re.match_here sentence_gap prev (c :: w ++ v :: b) = None).
    { destruct prev as [q|]; [|reflexivity]. rewrite gap_match.
      destruct (Re.one_of (py ".!?") q) eqn:Hq; [|reflexivity].
      destruct Hor as [Hor | Hor]; [congruence|].
      rewrite Hc, gap_none by assumption. reflexivity. }
    rewrite Hm. f_equal. apply IH. left. now apply space_not_terminal.
Qed.

(** X4. At a sentence boundary (a [.], [!] or [?], then whitespace, then
    a capital [A]..[Z]) the third statement puts two newlines in place of
    the whitespace, and what stands before and after is rewritten as it
    would be on its own. *)
Theorem resegment_at_boundary (a : str) (p : char) (w : str) (u : char) (b : str) :
  Re.one_of (py ".!?") p = true ->
  w <> [] -> Forall (fun c => Ch.isspace c = true) w ->
  Ch.in_range 65 90 u = true ->
  resegment (a ++ p :: w ++ u :: b)
  = resegment (a ++ [p]) ++ [LF; LF] ++ resegment (u :: b).
Proof.
  intros Hp Hne Hw Hu.
  assert (Hps : Ch.isspace p = false) by now apply terminal_not_space.
  assert (Hus : Ch.isspace u = false) by now apply capital_not_space.
  unfold resegment at 1 2. unfold Re.sub.
  replace (a ++ p :: w ++ u :: b) with ((a ++ [p]) ++ w ++ u :: b)
    by (now rewrite <- app_assoc).
  rewrite gap_local; [|rewrite length_app; cbn [length]; lia | now rewrite last_last].
  rewrite last_last. f_equal.
  destruct w as [|c w]; [contradiction|]. inversion Hw as [|? ? Hc Hw']; subst.
  cbn [app]. rewrite gap_cons, gap_match, Hp, Hc, gap_run by assumption.
  cbn [option_map app]. do 2 f_equal.
  destruct w as [|c' w].
  - cbn [app length]. rewrite gap_cons_nonspace by assumption.
    now rewrite resegment_cons_nonspace.
  - rewrite gap_skip_run by discriminate.
    rewrite gap_cons_nonspace, resegment_cons_nonspace by assumption. reflexivity.
Qed.

(** X5. Whitespace between two words stays as it is when the character
    before it is not [.], [!] or [?], and also when the character after it
    is not a capital [A]..[Z]. *)
Theorem resegment_elsewhere (a : str) (q : char) (w : str) (v : char) (b : str) :
  Ch.isspace q = false ->
  Forall (fun c => Ch.isspace c = true) w ->
  Ch.isspace v = false ->
  Re.one_of (py ".!?") q = false \/ Ch.in_range 65 90 v = false ->
  resegment (a ++ q :: w ++ v :: b)
  = resegment (a ++ [q]) ++ w ++ resegment (v :: b).
Proof.
  intros Hq Hw Hv Hor.
  unfold resegment at 1 2. unfold Re.sub.
  replace (a ++ q :: w ++ v :: b) with ((a ++ [q]) ++ w ++ v :: b)
    by (now rewrite <- app_assoc).
  rewrite gap_local; [|rewrite length_app; cbn [length]; lia | now rewrite last_last].
  rewrite last_last. f_equal.
  rewrite gap_copied, resegment_cons_nonspace by assumption. reflexivity.
Qed.
End Resegment.

(** ** Words that are never linked *)

Section Exclusions.
Context {U : UnicodeData}.

Abbreviation capital := (fun c : char => Ch.in_range 65 90 c = true).

Lemma capital_ascii (c : char) : capital c -> Ch.is_ascii c = true.
Proof.
  unfold Ch.in_range, Ch.is_ascii. intros H.
  apply andb_true_iff in H as [_ H]. apply N.leb_le in H. apply N.ltb_lt. lia.
Qed.

Lemma capital_isupper (c : char) : capital c -> Ch.isupper c = true.
Proof. intros H. unfold Ch.isupper. now rewrite (capital_ascii c H). Qed.

Lemma capital_not_lower (c : char) :
  capital c -> Ch.islower c || Ch.istitle c = false.
Proof.
  intros H. unfold Ch.islower, Ch.istitle. rewrite (capital_ascii c H).
  rewrite orb_false_r. unfold Ch.in_range in *.
  apply andb_true_iff in H as [_ H]. apply N.leb_le in H.
  apply andb_false_iff. left. apply N.leb_gt. lia.
Qed.

Lemma capital_isword (c : char) : capital c -> Ch.isword c = true.
Proof.
  intros H. unfold Ch.isword, Ch.isalnum. rewrite (capital_ascii c H), H.
  now rewrite orb_true_r.
Qed.

Lemma isupper_loop_capitals (a : str) (cased : bool) :
  Forall capital a ->
  PyStr.isupper_loop cased a = match a with [] => cased | _ :: _ => true end.
Proof.
  intros Ha. revert cased. induction Ha as [|c a Hc Ha IH]; intros cased; [reflexivity|].
  cbn [PyStr.isupper_loop]. rewrite (capital_not_lower c Hc), IH, (capital_isupper c Hc).
  rewrite orb_true_r. now destruct a.
Qed.

Lemma isupper_capitals (a : str) :
  Forall capital a -> a <> [] -> PyStr.isupper a = true.
Proof.
  intros Ha Hne. destruct a as [|c [|c' a]]; [contradiction | |].
  - inversion Ha; subst. now apply capital_isupper.
  - unfold PyStr.isupper. now rewrite isupper_loop_capitals.
Qed.

(** X6. A token made of capitals [A]..[Z] only, with or without
    punctuation after it, is left as it is: an acronym is never linked. *)
Theorem acronym_is_not_linked (a p : str) :
  Forall (fun c => Ch.in_range 65 90 c = true) a ->
  Forall (fun c => punct c = true) p ->
  link_word (a ++ p) = Ok (a ++ p).
Proof.
  intros Ha Hp.
  assert (Hw : Forall (fun c => Ch.isword c = true) a).
  { eapply Forall_impl; [|exact Ha]. intros c. apply capital_isword. }
  destruct (link_word_spec (a ++ p)) as [[_ He] | [Hl _]]; [|exact Hl].
  rewrite (clean_trailing a p Hw Hp) in He.
  destruct He as (Hne & _ & _ & Hup & _).
  rewrite (isupper_capitals a Ha Hne) in Hup. discriminate Hup.
Qed.

(** X7. A token of one word character, with or without punctuation after
    it, is left as it is, whatever the character. *)
Theorem single_character_is_not_linked (c : char) (p : str) :
  Ch.isword c = true ->
  Forall (fun c => punct c = true) p ->
  link_word (c :: p) = Ok (c :: p).
Proof.
  intros Hc Hp.
  destruct (link_word_spec (c :: p)) as [[_ He] | [Hl _]]; [|exact Hl].
  change (c :: p) with ([c] ++ p) in He.
  rewrite (clean_trailing [c] p) in He by (try assumption; now repeat constructor).
  destruct He as (_ & _ & _ & _ & Hlen). cbn [length] in Hlen. lia.
Qed.

(** X8. The normalizer returns its input unchanged exactly when the input
    holds no carriage return and no whitespace run with three newlines. *)
Theorem normalize_fixed_points (s : str) :
  normalize s = s <-> ~ In CR s /\ calm s = true.
Proof.
  split.
  - intros H. rewrite <- H. split; [apply normalize_no_CR | apply normalize_calm].
  - intros [Hcr Hcalm]. unfold normalize.
    rewrite line_endings_fixed by assumption. now apply collapse_calm.
Qed.
End Exclusions.

(** ** One file, step by step *)

Section FileSteps.
Context {U : UnicodeData} {E : Env}.

(** The path of the daily note of [date]. *)
Abbreviation note_path date :=
  (config.DAILY_NOTES_FOLDER ++ py "/" ++ strftime date (py "%Y-%m-%d") ++ py ".md").

Abbreviation at_world st w :=
  {| world := w; stdout := stdout st; template_content := template_content st |}.

Lemma ensure_existing (date : datetime) (st : state) (text : str) (w : World) :
  get_file_contents (note_path date) (world st) = (Ok text, w) ->
  ensure_daily_note_exists date st = (Ok (note_path date), at_world st w).
Proof.
  intros Hg. unfold ensure_daily_note_exists, bind, try_except, call, ret.
  now rewrite Hg.
Qed.

Lemma ensure_without_template (date : datetime) (st : state) (e : exn) (w : World) :
  get_file_contents (note_path date) (world st) = (Raise e, w) ->
  is_Exception e = true ->
  template_content st = None \/ template_content st = Some [] ->
  ensure_daily_note_exists date st
  = (Raise (ValueError (py "Template not loaded")), at_world st w).
Proof.
  intros Hg He Ht.
  unfold ensure_daily_note_exists, bind, try_except, call, ret, get_template, raise.
  rewrite Hg, He. cbn [template_content].
  destruct Ht as [-> | ->]; reflexivity.
Qed.

Lemma add_ok (note content : str) (st : state) (w : World) :
  patch_content note (py "heading") config.NOTE_SECTION_HEADING (py "append")
    ([LF] ++ content ++ [LF]) (world st) = (Ok tt, w) ->
  add_to_daily_note note content st = (Ok tt, at_world st w).
Proof. intros Hp. unfold add_to_daily_note, try_except, call. now rewrite Hp. Qed.

(** X9. When the file is read, the day's note exists, the append and the
    rename succeed, [process_supernote_file] returns without printing: the
    note is not made again, the section [Notes] receives the processed text
    between two newlines, and the file gets the suffix [.processed]. *)
Theorem file_processed_quietly
    (file_path : str) (date : datetime) (st : state)
    (content processed text : str) (w1 w2 w3 w4 : World) :
  read_text file_path (world st) = (Ok content, w1) ->
  process_supernote_content content = Ok processed ->
  get_file_contents (note_path date) w1 = (Ok text, w2) ->
  patch_content (note_path date) (py "heading") (py "Notes") (py "append")
    ([LF] ++ processed ++ [LF]) w2 = (Ok tt, w3) ->
  os_rename file_path (file_path ++ py ".processed") w3 = (Ok tt, w4) ->
  process_supernote_file file_path date st = (Ok tt, at_world st w4).
Proof.
  intros Hr Hp Hg Ha Hmv.
  unfold process_supernote_file, try_except, process_supernote_file_body, bind, call, pure.
  rewrite Hr, Hp. cbn [world stdout template_content].
  rewrite (ensure_existing date (at_world st w1) text w2) by exact Hg.
  cbn [world stdout template_content].
  rewrite (add_ok (note_path date) processed (at_world st w2) w3) by exact Ha.
  cbn [world stdout template_content].
  change (config.PROCESSED_SUFFIX) with (py ".processed"). now rewrite Hmv.
Qed.

(** X10. When the day's note is missing and no template is loaded, or an
    empty one, [ensure_daily_note_exists] raises
    [ValueError("Template not loaded")], and [process_supernote_file] does
    nothing more than print ["Error processing <path>: Template not loaded"]:
    no note is made, nothing is appended, the file keeps its name, and the
    call returns what that [print] returns, normally when the line is
    written. *)
Theorem missing_template_is_reported
    (file_path : str) (date : datetime) (st : state)
    (content : str) (e : exn) (w1 w2 : World) :
  read_text file_path (world st) = (Ok content, w1) ->
  get_file_contents (note_path date) w1 = (Raise e, w2) ->
  is_Exception e = true ->
  template_content st = None \/ template_content st = Some [] ->
  ensure_daily_note_exists date (at_world st w1)
  = (Raise (ValueError (py "Template not loaded")), at_world st w2)
  /\ process_supernote_file file_path date st
     = print (py "Error processing " ++ file_path ++ py ": Template not loaded")
         (at_world st w2)
  /\ (stdout_error (py "Error processing " ++ file_path ++ py ": Template not loaded")
        w2 = None ->
      process_supernote_file file_path date st
      = (Ok tt,
         {| world := w2;
            stdout := stdout st
                      ++ [py "Error processing " ++ file_path
                          ++ py ": Template not loaded"];
            template_content := template_content st |})).
Proof.
  intros Hr Hg He Ht.
  assert (Hen : ensure_daily_note_exists date (at_world st w1)
                = (Raise (ValueError (py "Template not loaded")), at_world st w2))
    by (apply (ensure_without_template date (at_world st w1) e w2); assumption).
  assert (Hp : process_supernote_file file_path date st
               = print (py "Error processing " ++ file_path
                        ++ py ": Template not loaded") (at_world st w2))
    by (apply (note_error_caught file_path date st content w1
                 (ValueError (py "Template not loaded")) (at_world st w2));
        [exact Hr | exact Hen | reflexivity]).
  split; [exact Hen|]. split; [exact Hp|].
  intros Hpr. rewrite Hp, print_written by exact Hpr. reflexivity.
Qed.

(** X11. When the append fails, [add_to_daily_note] prints the error.
    When that line is written, the file is renamed all the same: it is
    marked as processed although its text reached no note. When the line
    cannot be written, the exception of [print] is caught in
    [process_supernote_file], which prints it in its turn, and the file
    keeps its name. *)
Theorem failed_append_still_marks_file
    (file_path : str) (date : datetime) (st : state)
    (content processed note : str) (st2 : state) (e : exn) (w1 w3 : World) :
  read_text file_path (world st) = (Ok content, w1) ->
  process_supernote_content content = Ok processed ->
  ensure_daily_note_exists date (at_world st w1) = (Ok note, st2) ->
  patch_content note (py "heading") (py "Notes") (py "append")
    ([LF] ++ processed ++ [LF]) (world st2) = (Raise e, w3) ->
  is_Exception e = true ->
  (forall w4,
      stdout_error (py "Error adding content to daily note: " ++ exn_str e) w3 = None ->
      os_rename file_path (file_path ++ py ".processed") w3 = (Ok tt, w4) ->
      process_supernote_file file_path date st
      = (Ok tt,
         {| world := w4;
            stdout := stdout st2
                      ++ [py "Error adding content to daily note: " ++ exn_str e];
            template_content := template_content st2 |}))
  /\ (forall e',
        stdout_error (py "Error adding content to daily note: " ++ exn_str e) w3
        = Some e' ->
        is_Exception e' = true ->
        process_supernote_file file_path date st
        = print (py "Error processing " ++ file_path ++ py ": " ++ exn_str e')
            (at_world st2 w3)).
Proof.
  intros Hr Hp Hen Ha He.
  pose proof (append_error_caught note processed st2 e w3 Ha He) as Hadd.
  split.
  - intros w4 Hpr Hmv.
    rewrite print_written in Hadd by exact Hpr.
    unfold process_supernote_file, try_except, process_supernote_file_body,
      bind, call, pure.
    rewrite Hr, Hp, Hen, Hadd. cbn [world stdout template_content].
    change (config.PROCESSED_SUFFIX) with (py ".processed"). now rewrite Hmv.
  - intros e' Hpr He'.
    rewrite (print_raises _ (at_world st2 w3) e' Hpr) in Hadd.
    apply file_error_caught; [|exact He'].
    unfold process_supernote_file_body, bind, call, pure.
    now rewrite Hr, Hp, Hen, Hadd.
Qed.

(** X12. A failure before the loop ends [main] with that exception,
    whatever its class: when the session cannot be opened nothing else is
    called; when the template cannot be read, or the export folder cannot
    be listed, no file is visited. *)
Theorem main_stops_on_setup_failure :
  (forall st e w,
      open_session (world st) = (Raise e, w) ->
      main st = (Raise e, at_world st w))
  /\ (forall st w1 e w2,
        open_session (world st) = (Ok tt, w1) ->
        get_file_contents config.TEMPLATE_PATH w1 = (Raise e, w2) ->
        main st = (Raise e, at_world st w2))
  /\ (forall st w1 template w2 e w3,
        open_session (world st) = (Ok tt, w1) ->
        get_file_contents config.TEMPLATE_PATH w1 = (Ok template, w2) ->
        os_listdir config.EXPORT_FOLDER w2 = (Raise e, w3) ->
        main st
        = (Raise e,
           {| world := w3; stdout := stdout st; template_content := Some template |})).
Proof.
  split; [|split].
  - intros st e w Ho. unfold main, bind, call. now rewrite Ho.
  - intros st w1 e w2 Ho Hg. unfold main, load_template, bind, call.
    rewrite Ho. cbn [world]. now rewrite Hg.
  - intros st w1 template w2 e w3 Ho Hg Hl.
    unfold main, load_template, bind, call, set_template.
    rewrite Ho. cbn [world]. rewrite Hg. cbn [world]. now rewrite Hl.
Qed.

Lemma startswith_app (s t : str) : PyStr.startswith (s ++ t) s = true.
Proof.
  induction s as [|c s IH]; [reflexivity|].
  cbn [app PyStr.startswith]. rewrite IH. unfold char_eqb. now rewrite N.eqb_refl.
Qed.

Lemma endswith_app (s suffix : str) : endswith (s ++ suffix) suffix = true.
Proof. unfold endswith. rewrite rev_app_distr. apply startswith_app. Qed.

(** X13. The loop passes over every name that does not end in [.txt];
    a name with the suffix [.processed] is one of them, so a file that was
    marked is not processed again. *)
Theorem marked_files_are_skipped :
  (forall filename st,
      endswith filename (py ".txt") = false -> visit filename st = (Ok tt, st))
  /\ (forall filename st,
        visit (filename ++ config.PROCESSED_SUFFIX) st = (Ok tt, st)).
Proof.
  split.
  - intros filename st H. unfold visit, endswith_any.
    cbn [config.VALID_EXTENSIONS existsb]. now rewrite H.
  - intros filename st. unfold visit.
    rewrite endswith_app. cbn [negb]. now rewrite andb_false_r.
Qed.
End FileSteps.

(** ** Line endings, in one pass *)

Section OnePass.
Context {U : UnicodeData}.

Abbreviation crlf := (PyStr.replace_from [CR; LF] [LF]).
Abbreviation cr := (PyStr.replace_from [CR] [LF]).

Lemma crlf_pair (t : str) : crlf 0 (CR :: LF :: t) = LF :: crlf 0 t.
Proof. reflexivity. Qed.

Lemma crlf_other (c : char) (t : str) :
  PyStr.startswith (c :: t) [CR; LF] = false -> crlf 0 (c :: t) = c :: crlf 0 t.
Proof. intros H. cbn [PyStr.replace_from]. now rewrite H. Qed.

Lemma cr_cons (c : char) (t : str) :
  cr 0 (c :: t) = (if char_eqb c CR then LF else c) :: cr 0 t.
Proof.
  cbn [PyStr.replace_from PyStr.startswith length Nat.sub].
  rewrite andb_true_r. now destruct (char_eqb c CR).
Qed.

Lemma two_passes (s : str) : cr 0 (crlf 0 s) = unify_line_endings s.
Proof.
  remember (length s) as k eqn:Hk. revert s Hk.
  induction k as [k IH] using lt_wf_ind. intros [|c t] Hk; [reflexivity|].
  cbn [unify_line_endings]. destruct (char_eqb c CR) eqn:Hc.
  - apply char_eqb_eq in Hc. subst c. destruct t as [|c' t'].
    + reflexivity.
    + destruct (char_eqb c' LF) eqn:Hc'.
      * apply char_eqb_eq in Hc'. subst c'. rewrite crlf_pair, cr_cons.
        change (char_eqb LF CR) with false. cbv iota. f_equal.
        apply (IH (length t')); [cbn [length] in Hk; lia | reflexivity].
      * rewrite crlf_other
          by (cbn [PyStr.startswith]; rewrite Hc'; now rewrite andb_false_r).
        rewrite cr_cons. change (char_eqb CR CR) with true. cbv iota. f_equal.
        apply (IH (length (c' :: t'))); [cbn [length] in *; lia | reflexivity].
  - rewrite crlf_other by (cbn [PyStr.startswith]; now rewrite Hc).
    rewrite cr_cons, Hc. f_equal.
    apply (IH (length t)); [cbn [length] in Hk; lia | reflexivity].
Qed.

(** X14. The two [replace] calls of the first statement amount to one
    pass from left to right in which [\r\n] and a [\r] on its own each
    become one [\n] and every other character is kept. *)
Theorem line_endings_in_one_pass (content : str) :
  PyStr.replace (PyStr.replace content [CR; LF] [LF]) [CR] [LF]
  = unify_line_endings content.
Proof. exact (two_passes content). Qed.
End OnePass.

(** ** Making the daily note *)

Section NoteCreation.
Context {U : UnicodeData} {E : Env}.

Abbreviation note_path date :=
  (config.DAILY_NOTES_FOLDER ++ py "/" ++ strftime date (py "%Y-%m-%d") ++ py ".md").

(** X15. When the day's note cannot be read and a template is loaded,
    the note is made by appending the template with [{{date}}] and
    [{{time}}] replaced by the date and the time of day, and its path is
    returned. *)
Theorem missing_note_is_made_from_template
    (date : datetime) (st : state) (e : exn) (template : str) (w1 w2 : World) :
  get_file_contents (note_path date) (world st) = (Raise e, w1) ->
  is_Exception e = true ->
  template_content st = Some template -> template <> [] ->
  append_content (note_path date)
    (PyStr.replace
       (PyStr.replace template (py "{{date}}") (strftime date (py "%Y-%m-%d")))
       (py "{{time}}") (strftime date (py "%H:%M"))) w1 = (Ok tt, w2) ->
  ensure_daily_note_exists date st
  = (Ok (note_path date),
     {| world := w2; stdout := stdout st; template_content := template_content st |}).
Proof.
  intros Hg He Ht Hne Ha.
  unfold ensure_daily_note_exists, bind, try_except, call, ret, get_template.
  rewrite Hg, He. cbn [template_content world stdout]. rewrite Ht.
  destruct template as [|c t]; [contradiction|].
  cbn [world]. now rewrite Ha.
Qed.
End NoteCreation.

(** ** The further statements at concrete inputs *)

Lemma resegment_at_boundary_witness :
  @resegment ascii_only (py "It is done" ++ 46%N :: [SP; LF] ++ 78%N :: py "ext")
  = @resegment ascii_only (py "It is done" ++ [46%N]) ++ [LF; LF]
    ++ @resegment ascii_only (78%N :: py "ext").
Proof.
  apply (@resegment_at_boundary ascii_only).
  - reflexivity.
  - discriminate.
  - repeat constructor.
  - reflexivity.
Defined.

Lemma resegment_elsewhere_witness :
  @resegment ascii_only (py "on" ++ 101%N :: [SP] ++ 84%N :: py "wo")
  = @resegment ascii_only (py "on" ++ [101%N]) ++ [SP]
    ++ @resegment ascii_only (84%N :: py "wo").
Proof.
  apply (@resegment_elsewhere ascii_only).
  - reflexivity.
  - repeat constructor.
  - reflexivity.
  - left. reflexivity.
Defined.

Lemma acronym_is_not_linked_witness :
  @link_word ascii_only (py "NASA" ++ py ",") = Ok (py "NASA" ++ py ",").
Proof.
  apply (@acronym_is_not_linked ascii_only); repeat constructor.
Defined.

Lemma single_character_is_not_linked_witness :
  @link_word ascii_only (66%N :: py ".") = Ok (66%N :: py ".").
Proof.
  apply (@single_character_is_not_linked ascii_only);
    [reflexivity | repeat constructor].
Defined.

Lemma file_processed_quietly_witness :
  exists w : toy_world,
    @process_supernote_file ascii_only toy (py "Supernote Exports/two.txt") tt
      (@Build_state toy toy_files_with_note [] None)
    = (Ok tt, @Build_state toy w [] None).
Proof.
  eexists.
  eapply (@file_processed_quietly ascii_only toy (py "Supernote Exports/two.txt") tt
            (@Build_state toy toy_files_with_note [] None)
            (py "Paris, France.") (py "[[Paris]], [[France]].") (py "# Monday")).
  - reflexivity.
  - reflexivity.
  - reflexivity.
  - reflexivity.
  - reflexivity.
Defined.

Lemma missing_template_is_reported_witness :
  @process_supernote_file ascii_only toy (py "Supernote Exports/two.txt") tt toy_start
  = (Ok tt,
     @Build_state toy toy_files
       [py "Error processing Supernote Exports/two.txt: Template not loaded"] None).
Proof.
  apply (proj2 (proj2
           (@missing_template_is_reported ascii_only toy
              (py "Supernote Exports/two.txt") tt
              toy_start (py "Paris, France.") (RemoteError (py "not found"))
              toy_files toy_files eq_refl eq_refl eq_refl (or_introl eq_refl)))).
  reflexivity.
Defined.

Lemma failed_append_still_marks_file_witness :
  exists w : toy_world,
    @process_supernote_file ascii_only toy_read_only (py "Supernote Exports/two.txt") tt
      (@Build_state toy_read_only toy_files_with_note [] None)
    = (Ok tt,
       @Build_state toy_read_only w
         [py "Error adding content to daily note: read-only"] None)
    /\ map fst (exports w)
       = [py "one.txt"; py "two.txt.processed"; py "old.txt.processed"].
Proof.
  eexists. split.
  - eapply (proj1
              (@failed_append_still_marks_file ascii_only toy_read_only
                 (py "Supernote Exports/two.txt") tt
                 (@Build_state toy_read_only toy_files_with_note [] None)
                 (py "Paris, France.") (py "[[Paris]], [[France]].")
                 (py "Daily Notes/2024-01-15.md")
                 (@Build_state toy_read_only toy_files_with_note [] None)
                 (RemoteError (py "read-only")) toy_files_with_note
                 toy_files_with_note eq_refl eq_refl eq_refl eq_refl eq_refl)).
    + reflexivity.
    + reflexivity.
  - reflexivity.
Defined.

Lemma main_stops_on_setup_failure_witness :
  @main ascii_only toy_offline (@Build_state toy_offline toy_files [] None)
  = (Raise (OSError (py "no server")), @Build_state toy_offline toy_files [] None).
Proof.
  apply (proj1 (@main_stops_on_setup_failure ascii_only toy_offline)
           (@Build_state toy_offline toy_files [] None)).
  reflexivity.
Defined.

Lemma marked_files_are_skipped_witness :
  @visit ascii_only toy (py "notes.md") toy_start = (Ok tt, toy_start).
Proof.
  apply (proj1 (@marked_files_are_skipped ascii_only toy)). reflexivity.
Defined.

Lemma missing_note_is_made_from_template_witness :
  exists w : toy_world,
    @ensure_daily_note_exists toy tt
      (@Build_state toy toy_files [] (Some (py "# {{date}} {{time}}")))
    = (Ok (py "Daily Notes/2024-01-15.md"),
       @Build_state toy w [] (Some (py "# {{date}} {{time}}")))
    /\ lookup (py "Daily Notes/2024-01-15.md") (vault w)
       = Some (py "# 2024-01-15 09:30").
Proof.
  eexists. split.
  - eapply (@missing_note_is_made_from_template toy tt
              (@Build_state toy toy_files [] (Some (py "# {{date}} {{time}}")))
              (RemoteError (py "not found")) (py "# {{date}} {{time}}")).
    + reflexivity.
    + reflexivity.
    + reflexivity.
    + discriminate.
    + reflexivity.
  - reflexivity.
Defined.
